(** * Agent runtime core: shallow embedding of [packages/core/src/types.ts]
    and of the TWITTER_POST action, with the properties of the
    specification stated over it. *)

From Stdlib Require Import ZArith NArith Ascii String List Sorted Permutation Lia.
From stdpp Require Import base option list gmap strings.

(** String concatenation computes on literal prefixes. *)
#[local] Arguments String.append !_ _ / : simpl nomatch.

(** ** JavaScript preliminaries *)

(** What a call can raise.  [Error] is [new Error(msg)]; [TypeError] is what
    the engine raises on a property read of [undefined] or [null]. *)
Inductive JsError : Type :=
| Error (message : string)
| TypeError (message : string).

Definition err_message (e : JsError) : string :=
  match e with Error m => m | TypeError m => m end.

(** Completion of a call: a value, or a raised error. *)
Inductive Outcome (A : Type) : Type :=
| Ok (a : A)
| Throw (e : JsError).
Arguments Ok {A} a.
Arguments Throw {A} e.

(** [!s] on a string: only the empty string is falsy. *)
Definition truthy (s : string) : bool := negb (String.eqb s "").

(** [!x] on an optional string ([undefined] is falsy). *)
Definition truthy_opt (s : option string) : bool :=
  match s with Some x => truthy x | None => false end.

(** Numbers handled by this code are integer timestamps; vectors of numbers
    are only copied. *)
Definition JsNumber : Type := Z.

(** ** Regular expressions of the shape the source uses

    A pattern [^ item ... item $]: each item is a literal character or a
    character class repeated a fixed number of times ([[0-9a-f]{8}]). *)
Inductive RegexItem : Type :=
| Lit (c : ascii)
| ClassRep (ranges : list (ascii * ascii)) (n : nat).

Record Regex : Type := mkRegex {
  re_items : list RegexItem;
  re_ignoreCase : bool
}.

Definition inRangeN (lo hi n : N) : bool := ((lo <=? n) && (n <=? hi))%N.

(** Canonicalize of a non-unicode, ignore-case pattern: upper-casing, which
    on code units below 128 moves [a-z] to [A-Z] and is never allowed to map
    a code unit of 128 or more to one below 128. *)
Definition canonicalize (c : ascii) : ascii :=
  let n := N_of_ascii c in
  if inRangeN 97 122 n then ascii_of_N (n - 32) else c.

Definition charEq (ignoreCase : bool) (a b : ascii) : bool :=
  if ignoreCase then Ascii.eqb (canonicalize a) (canonicalize b)
  else Ascii.eqb a b.

(** The characters of a class range, in code order. *)
Definition rangeChars (r : ascii * ascii) : list ascii :=
  let lo := nat_of_ascii (fst r) in
  let hi := nat_of_ascii (snd r) in
  List.map ascii_of_nat (seq lo (S hi - lo)).

Definition classMatch (ignoreCase : bool) (ranges : list (ascii * ascii))
  (c : ascii) : bool :=
  existsb (fun r => existsb (fun x => charEq ignoreCase x c) (rangeChars r))
    ranges.

(** Consume exactly [n] characters of the class. *)
Fixpoint takeClass (ic : bool) (ranges : list (ascii * ascii)) (n : nat)
  (s : string) : option string :=
  match n with
  | O => Some s
  | S n' =>
      match s with
      | String c s' =>
          if classMatch ic ranges c then takeClass ic ranges n' s' else None
      | EmptyString => None
      end
  end.

(** Match the items from the start of [s]; the closing [$] (no [m] flag)
    accepts only the end of the input. *)
Fixpoint matchItems (ic : bool) (items : list RegexItem) (s : string) : bool :=
  match items with
  | [] => match s with EmptyString => true | _ => false end
  | Lit c :: rest =>
      match s with
      | String c' s' => if charEq ic c c' then matchItems ic rest s' else false
      | EmptyString => false
      end
  | ClassRep ranges n :: rest =>
      match takeClass ic ranges n s with
      | Some s' => matchItems ic rest s'
      | None => false
      end
  end.

(** [re.test(s)] *)
Definition test (re : Regex) (s : string) : bool :=
  matchItems (re_ignoreCase re) (re_items re) s.

(** ** UUIDs *)

(** [type UUID = `${string}-${string}-${string}-${string}-${string}`]: a
    string; the template type admits those with at least four hyphens. *)
Definition UUID : Type := string.

Fixpoint countHyphens (s : string) : nat :=
  match s with
  | EmptyString => 0
  | String c s' => (if Ascii.eqb c "-" then 1 else 0) + countHyphens s'
  end.

Definition wellTypedUUID (s : UUID) : Prop := 4 <= countHyphens s.

Definition hexRanges : list (ascii * ascii) :=
  [("0"%char, "9"%char); ("a"%char, "f"%char)].

(** [/^[0-9a-f]{8}-[0-9a-f]{4}-[0-9a-f]{4}-[0-9a-f]{4}-[0-9a-f]{12}$/i] *)
Definition UUID_REGEX : Regex :=
  mkRegex
    [ClassRep hexRanges 8; Lit "-"; ClassRep hexRanges 4; Lit "-";
     ClassRep hexRanges 4; Lit "-"; ClassRep hexRanges 4; Lit "-";
     ClassRep hexRanges 12]
    true.

Definition asUUID (id : string) : Outcome UUID :=
  if negb (truthy id) || negb (test UUID_REGEX id)
  then Throw (Error ("Invalid UUID format: " +:+ id))
  else Ok id.

(** The pattern in words: five groups of hexadecimal digits, of lengths
    8, 4, 4, 4 and 12, separated by single hyphens. *)
Definition isHexDigit (c : ascii) : Prop :=
  In c (list_ascii_of_string "0123456789abcdefABCDEF").

Definition isHexDigitb (c : ascii) : bool :=
  existsb (Ascii.eqb c) (list_ascii_of_string "0123456789abcdefABCDEF").

Fixpoint allChars (P : ascii -> Prop) (s : string) : Prop :=
  match s with
  | EmptyString => True
  | String c s' => P c /\ allChars P s'
  end.

Definition hexGroup (n : nat) (s : string) : Prop :=
  String.length s = n /\ allChars isHexDigit s.

Definition uuidShaped (s : string) : Prop :=
  exists a b c d e,
    s = a +:+ "-" +:+ b +:+ "-" +:+ c +:+ "-" +:+ d +:+ "-" +:+ e /\
    hexGroup 8 a /\ hexGroup 4 b /\ hexGroup 4 c /\ hexGroup 4 d /\
    hexGroup 12 e.

(** ** Result helpers *)

Module Success.
Record t (T : Type) : Type := new_ {
  value : T;
  isSuccess : bool;
  isFailure : bool
}.
Arguments new_ {T}.
Arguments value {T}.
Arguments isSuccess {T}.
Arguments isFailure {T}.

(** [constructor(value)], with the two read-only flags of the class. *)
Definition new {T} (v : T) : t T :=
  {| value := v; isSuccess := true; isFailure := false |}.

Definition map {T U} (self : t T) (fn : T -> U) : t U := new (fn (value self)).

Definition unwrapOr {T} (self : t T) (_defaultValue : T) : T := value self.
End Success.

Module Failure.
Record t (E : Type) : Type := new_ {
  error : E;
  isSuccess : bool;
  isFailure : bool
}.
Arguments new_ {E}.
Arguments error {E}.
Arguments isSuccess {E}.
Arguments isFailure {E}.

Definition new {E} (e : E) : t E :=
  {| error := e; isSuccess := false; isFailure := true |}.

Definition mapError {E F} (self : t E) (fn : E -> F) : t F :=
  new (fn (error self)).

Definition unwrapOr {E T} (self : t E) (defaultValue : T) : T := defaultValue.
End Failure.

(** [type Result<T, E> = Success<T> | Failure<E>] *)
Definition Result (T E : Type) : Type := (Success.t T + Failure.t E)%type.

Definition success {T} (value : T) : Success.t T := Success.new value.

Definition failure {E} (error : E) : Failure.t E := Failure.new error.

(** ** Content and memories *)

(** [interface Content]: the named optional properties this code reads or
    writes (attachments are never touched by it), and [tweetId], the one
    dynamic property the TWITTER_POST worker adds. *)
Record Content : Type := mkContent {
  c_thought : option string;
  c_plan : option string;
  c_text : option string;
  c_actions : option (list string);
  c_providers : option (list string);
  c_source : option string;
  c_url : option string;
  c_inReplyTo : option UUID;
  c_tweetId : option string
}.

(** The object literal [{}]. *)
Definition emptyContent : Content :=
  mkContent None None None None None None None None None.

Inductive MemoryType : Type := DOCUMENT | FRAGMENT | MESSAGE | DESCRIPTION | CUSTOM.

(** The string value of each member of [enum MemoryType]. *)
Definition MemoryType_value (t : MemoryType) : string :=
  match t with
  | DOCUMENT => "document"
  | FRAGMENT => "fragment"
  | MESSAGE => "message"
  | DESCRIPTION => "description"
  | CUSTOM => "custom"
  end.

Inductive MemoryScope : Type := shared | private | room.

(** [interface BaseMetadata]; [type] is a [MemoryTypeAlias], a string. *)
Record MemoryMetadata : Type := mkMetadata {
  md_type : string;
  md_source : option string;
  md_sourceId : option UUID;
  md_scope : option MemoryScope;
  md_timestamp : option JsNumber;
  md_tags : option (list string)
}.

(** [interface Memory] *)
Record Memory : Type := mkMemory {
  m_id : option UUID;
  m_entityId : UUID;
  m_agentId : option UUID;
  m_createdAt : option JsNumber;
  m_content : Content;
  m_embedding : option (list JsNumber);
  m_roomId : UUID;
  m_unique : option bool;
  m_similarity : option JsNumber;
  m_metadata : option MemoryMetadata
}.

(** [typeof x === 'string'] on an optional string property. *)
Definition typeof_is_string (x : option string) : bool :=
  match x with Some _ => true | None => false end.

Definition isMessageMemory (memory : Memory) : bool :=
  match m_metadata memory with
  | Some md => String.eqb (md_type md) (MemoryType_value MESSAGE)
  | None => false
  end
  && typeof_is_string (c_text (m_content memory)).

(** The parameter object of [createMessageMemory]. *)
Record MessageParams : Type := mkMessageParams {
  p_id : option UUID;
  p_entityId : UUID;
  p_agentId : option UUID;
  p_roomId : UUID;
  p_content : Content;
  p_embedding : option (list JsNumber)
}.

(** The declared type of the parameter: [content.text] is a string and the
    identifiers are UUID-typed. *)
Definition wellTypedParams (p : MessageParams) : Prop :=
  is_Some (c_text (p_content p)) /\
  (forall a, p_agentId p = Some a -> wellTypedUUID a).

(** [createMessageMemory(params)]; [now1] and [now2] are what the two calls
    of [Date.now()] return, in evaluation order. *)
Definition createMessageMemory (now1 now2 : JsNumber) (params : MessageParams)
  : Memory :=
  {| (* ...params *)
     m_id := p_id params;
     m_entityId := p_entityId params;
     m_agentId := p_agentId params;
     m_roomId := p_roomId params;
     m_content := p_content params;
     m_embedding := p_embedding params;
     m_unique := None;
     m_similarity := None;
     m_createdAt := Some now1;
     m_metadata :=
       Some {| md_type := MemoryType_value MESSAGE;
               md_source := None;
               md_sourceId := None;
               md_timestamp := Some now2;
               md_scope :=
                 Some (if truthy_opt (p_agentId params) then private
                       else shared);
               md_tags := None |} |}.

(** ** Rooms, tasks, settings *)

Inductive ChannelType : Type :=
| SELF | DM | GROUP | VOICE_DM | VOICE_GROUP | FEED | THREAD | WORLD | API
| FORUM.

Definition ChannelType_eqb (a b : ChannelType) : bool :=
  match a, b with
  | SELF, SELF | DM, DM | GROUP, GROUP | VOICE_DM, VOICE_DM
  | VOICE_GROUP, VOICE_GROUP | FEED, FEED | THREAD, THREAD | WORLD, WORLD
  | API, API | FORUM, FORUM => true
  | _, _ => false
  end.

(** [type Room] *)
Record Room : Type := mkRoom {
  room_id : UUID;
  room_name : option string;
  room_agentId : option UUID;
  room_source : string;
  room_type : ChannelType;
  room_channelId : option string;
  room_serverId : option string;
  room_worldId : option UUID
}.

Record TaskOption : Type := mkTaskOption {
  opt_name : string;
  opt_description : string
}.

Record TaskMetadata : Type := mkTaskMetadata {
  tm_updateInterval : option JsNumber;
  tm_options : option (list TaskOption)
}.

(** [interface Task] *)
Record Task : Type := mkTask {
  task_id : option UUID;
  task_name : string;
  task_updatedAt : option JsNumber;
  task_metadata : option TaskMetadata;
  task_description : string;
  task_roomId : option UUID;
  task_worldId : option UUID;
  task_tags : list string
}.

(** [Setting.value : string | boolean | null] *)
Inductive SettingValue : Type :=
| SVString (s : string)
| SVBool (b : bool)
| SVNull.

(** [interface Setting]; the code reads only [value]. *)
Record Setting : Type := mkSetting {
  set_name : string;
  set_value : SettingValue;
  set_required : bool
}.

(** What a template literal prints for a setting value. *)
Definition SettingValue_toString (v : SettingValue) : string :=
  match v with
  | SVString s => s
  | SVBool true => "true"
  | SVBool false => "false"
  | SVNull => "null"
  end.

(** ** Values of the context snapshot *)

Inductive JsVal : Type :=
| JUndefined
| JNull
| JBool (b : bool)
| JNum (n : JsNumber)
| JStr (s : string)
| JRoom (r : Room).

Definition js_truthy (v : JsVal) : bool :=
  match v with
  | JUndefined | JNull => false
  | JBool b => b
  | JNum n => negb (Z.eqb n 0)
  | JStr s => truthy s
  | JRoom _ => true
  end.

Definition nullish (v : JsVal) : bool :=
  match v with JUndefined | JNull => true | _ => false end.

(** [interface State] *)
Record State : Type := mkState {
  st_values : gmap string JsVal;
  st_data : gmap string JsVal;
  st_text : string
}.

(** [v.type] and [v.serverId] for whatever [state.data.room] holds: a
    property read on a primitive gives [undefined]. *)
Definition roomType (v : JsVal) : option ChannelType :=
  match v with JRoom r => Some (room_type r) | _ => None end.

Definition roomServerId (v : JsVal) : option string :=
  match v with JRoom r => room_serverId r | _ => None end.

(** ** The Twitter service (the plugin-twitter collaborator) *)

(** The object handed to [ensureTwitterClient]. *)
Record TwitterVals : Type := mkTwitterVals {
  TWITTER_USERNAME : SettingValue;
  TWITTER_EMAIL : SettingValue;
  TWITTER_PASSWORD : SettingValue;
  TWITTER_2FA_SECRET : option SettingValue
}.

(** [sendTweet(text)] followed by [result.json()] and the optional chain
    down to [rest_id]: the identifier when present, or a rejection. *)
Record TwitterClient : Type := mkTwitterClient {
  tc_sendTweet : string -> Outcome (option string)
}.

Record TwitterService : Type := mkTwitterService {
  ts_getClient : string -> UUID -> option TwitterClient;
  ts_createClient : string -> TwitterVals -> Outcome (option TwitterClient)
}.

(** ** The runtime as the action sees it *)

Definition CallbackId : Type := nat.

(** What a call leaves behind outside the task store. *)
Inductive Effect : Type :=
| ECreateMemory (table : string) (m : Memory)
| ECallback (cb : CallbackId) (c : Content)
| ESendTweet (tweet : string)
| ECreateClient (serverId : string)
| ELog (level : string) (msg : string).

(** The [worker] object literal of the handler: the variables its two
    closures capture. *)
Record Worker : Type := mkWorker {
  wk_name : string;
  wk_callback : CallbackId;
  wk_responseContent : Content;
  wk_worldSettings : gmap string Setting;
  wk_serverId : string;
  wk_cleanTweet : string
}.

(** The runtime and its collaborators: the stored rooms and tasks, the
    supply of task identifiers, the tables that have a memory manager
    ([getMemoryManager] gives [null] for the others), the task-worker
    registry, the twitter service if one is registered, the helpers of the
    core package the action calls ([getWorldSettings], [getUserServerRole],
    [composePrompt], [useModel]), and the trace of effects so far. *)
Record World : Type := mkWorld {
  w_agentId : UUID;
  w_rooms : list Room;
  w_tasks : list Task;
  w_nextTask : nat;
  w_taskId : nat -> UUID;
  w_memoryManagers : list string;
  w_workers : gmap string Worker;
  w_twitter : option TwitterService;
  w_getWorldSettings : string -> Outcome (option (gmap string Setting));
  w_getUserServerRole : UUID -> string -> string;
  w_composePrompt : State -> string -> string;
  w_useModel : string -> string -> Outcome string;
  w_trace : list Effect
}.

Definition set_tasks (f : list Task -> list Task) (w : World) : World :=
  mkWorld (w_agentId w) (w_rooms w) (f (w_tasks w)) (w_nextTask w)
    (w_taskId w) (w_memoryManagers w) (w_workers w) (w_twitter w)
    (w_getWorldSettings w) (w_getUserServerRole w) (w_composePrompt w)
    (w_useModel w) (w_trace w).

Definition set_nextTask (n : nat) (w : World) : World :=
  mkWorld (w_agentId w) (w_rooms w) (w_tasks w) n
    (w_taskId w) (w_memoryManagers w) (w_workers w) (w_twitter w)
    (w_getWorldSettings w) (w_getUserServerRole w) (w_composePrompt w)
    (w_useModel w) (w_trace w).

Definition set_workers (f : gmap string Worker -> gmap string Worker)
  (w : World) : World :=
  mkWorld (w_agentId w) (w_rooms w) (w_tasks w) (w_nextTask w)
    (w_taskId w) (w_memoryManagers w) (f (w_workers w)) (w_twitter w)
    (w_getWorldSettings w) (w_getUserServerRole w) (w_composePrompt w)
    (w_useModel w) (w_trace w).

Definition set_trace (f : list Effect -> list Effect) (w : World) : World :=
  mkWorld (w_agentId w) (w_rooms w) (w_tasks w) (w_nextTask w)
    (w_taskId w) (w_memoryManagers w) (w_workers w) (w_twitter w)
    (w_getWorldSettings w) (w_getUserServerRole w) (w_composePrompt w)
    (w_useModel w) (f (w_trace w)).

(** ** Calls that read and change the runtime, and may throw *)

Definition M (A : Type) : Type := World -> Outcome A * World.

Definition ret {A} (a : A) : M A := fun w => (Ok a, w).

Definition bind {A B} (m : M A) (k : A -> M B) : M B :=
  fun w =>
    match m w with
    | (Ok a, w') => k a w'
    | (Throw e, w') => (Throw e, w')
    end.

Definition throw {A} (e : JsError) : M A := fun w => (Throw e, w).

Definition gets {A} (f : World -> A) : M A := fun w => (Ok (f w), w).

Definition modify (f : World -> World) : M unit := fun w => (Ok tt, f w).

Definition liftOutcome {A} (o : Outcome A) : M A := fun w => (o, w).

Definition emit (ev : Effect) : M unit :=
  modify (set_trace (fun t => t ++ [ev])).

(** [try { body } catch (error) { handler }] *)
Definition tryCatch {A} (body : M A) (handler : JsError -> M A) : M A :=
  fun w =>
    match body w with
    | (Ok a, w') => (Ok a, w')
    | (Throw e, w') => handler e w'
    end.

Declare Scope js_scope.
Delimit Scope js_scope with js.
Notation "x <- m ;; k" := (bind m (fun x => k))
  (at level 100, m at next level, right associativity) : js_scope.
Notation "m ;;; k" := (bind m (fun _ => k))
  (at level 100, right associativity) : js_scope.

Local Open Scope js_scope.

(** ** The storage collaborator *)

Definition UUID_eqb_opt (a : option UUID) (b : UUID) : bool :=
  match a with Some x => String.eqb x b | None => false end.

Definition hasTag (t : Task) (tag : string) : bool :=
  existsb (String.eqb tag) (task_tags t).

(** Modelled from the spec: the storage collaborator's task queries are not
    in the sources (only [IDatabaseAdapter]'s signatures are).  [getTasks]
    keeps the tasks of the given room that carry every given tag. *)
Definition getTasks (roomId : UUID) (tags : list string) : M (list Task) :=
  gets (fun w =>
    List.filter
      (fun t => UUID_eqb_opt (task_roomId t) roomId
                && forallb (hasTag t) tags)
      (w_tasks w)).

(** Modelled from the spec: [getTask(id)] of the storage collaborator, the
    task stored under that identifier or [null]. *)
Definition getTask (id : UUID) : M (option Task) :=
  gets (fun w => List.find (fun t => UUID_eqb_opt (task_id t) id) (w_tasks w)).

(** Modelled from the spec: [deleteTask(id)] of the storage collaborator. *)
Definition deleteTask (id : option UUID) : M unit :=
  modify (set_tasks (fun ts =>
    match id with
    | Some i => List.filter (fun t => negb (UUID_eqb_opt (task_id t) i)) ts
    | None => ts
    end)).

(** Modelled from the spec: [createTask(task)] of the storage collaborator;
    the record is stored under a fresh identifier, which is returned. *)
Definition createTask (task : Task) : M UUID :=
  fun w =>
    let id := w_taskId w (w_nextTask w) in
    let stored :=
      mkTask (Some id) (task_name task) (task_updatedAt task)
        (task_metadata task) (task_description task) (task_roomId task)
        (task_worldId task) (task_tags task) in
    (Ok id, set_nextTask (S (w_nextTask w))
              (set_tasks (fun ts => ts ++ [stored]) w)).

(** Modelled from the spec: [getRoom(roomId)] of the storage collaborator. *)
Definition getRoom (roomId : UUID) : M (option Room) :=
  gets (fun w => List.find (fun r => String.eqb (room_id r) roomId) (w_rooms w)).

(** Modelled from the spec: [runtime.getTaskWorker(name)] and
    [runtime.registerTaskWorker(worker)], which the sources only declare;
    the in-memory registry, keyed by the worker's name. *)
Definition getTaskWorker (name : string) : M (option Worker) :=
  gets (fun w => w_workers w !! name).

Definition registerTaskWorker (worker : Worker) : M unit :=
  modify (set_workers (fun ws => <[wk_name worker := worker]> ws)).

Definition getWorldSettings (serverId : string)
  : M (option (gmap string Setting)) :=
  fun w => (w_getWorldSettings w serverId, w).

Definition getUserServerRole (entityId : UUID) (serverId : string) : M string :=
  gets (fun w => w_getUserServerRole w entityId serverId).

Definition callback (cb : CallbackId) (c : Content) : M unit :=
  emit (ECallback cb c).

(** ** String clean-up of the generated tweet *)

Definition nl : string := String "010" "".
Definition dquote : ascii := "034"%char.
Definition squote : ascii := "039"%char.
Definition backslash : ascii := "092"%char.

Fixpoint dropWhile {A} (f : A -> bool) (l : list A) : list A :=
  match l with
  | [] => []
  | x :: r => if f x then dropWhile f r else l
  end.

(** [s.trim()], on the white space below code 128. *)
Definition trim (s : string) : string :=
  string_of_list_ascii
    (rev (dropWhile Ascii.is_space
            (rev (dropWhile Ascii.is_space (list_ascii_of_string s))))).

Definition isQuote (c : ascii) : bool :=
  Ascii.eqb c dquote || Ascii.eqb c squote.

(** [.] of a pattern without the [s] flag: any character but a line
    terminator. *)
Definition isLineTerminator (c : ascii) : bool :=
  Ascii.eqb c "010"%char || Ascii.eqb c "013"%char.

(** The first [replace] of the clean-up: its pattern is anchored at both
    ends and reads one quote (double or single), a greedy group of any
    characters and one quote again, and the replacement is the group.  It
    matches when the
    string opens and closes with a quote and has no line terminator in
    between; the whole string is then replaced by what is between. *)
Definition stripQuotes (s : string) : string :=
  match list_ascii_of_string s with
  | first :: rest =>
      match rev rest with
      | last :: revMiddle =>
          if isQuote first && isQuote last
             && forallb (fun c => negb (isLineTerminator c)) revMiddle
          then string_of_list_ascii (rev revMiddle)
          else s
      | [] => s
      end
  | [] => s
  end.

(** The second [replace], with the [g] flag: every backslash followed by
    the letter n becomes a line feed. *)
Fixpoint unescapeNewlines (s : string) : string :=
  match s with
  | EmptyString => EmptyString
  | String c rest =>
      match rest with
      | String d rest' =>
          if Ascii.eqb c backslash && Ascii.eqb d "n"%char
          then String "010" (unescapeNewlines rest')
          else String c (unescapeNewlines rest)
      | EmptyString => String c EmptyString
      end
  end.

Definition tweetGenerationTemplate : string :=
  "# Task: Create a post in the style and voice of {{agentName}}." +:+ nl +:+
  "{{system}}" +:+ nl +:+ nl +:+
  "About {{agentName}}:" +:+ nl +:+
  "{{bio}}" +:+ nl +:+ nl +:+
  "{{topics}}" +:+ nl +:+ nl +:+
  "{{characterPostExamples}}" +:+ nl +:+ nl +:+
  "Recent Context:" +:+ nl +:+
  "{{recentMessages}}" +:+ nl +:+ nl +:+
  "# Instructions: Write a tweet that captures the essence of what {{agentName}} wants to share. The tweet should be:" +:+ nl +:+
  "- Under 280 characters" +:+ nl +:+
  "- In {{agentName}}'s authentic voice and style" +:+ nl +:+
  "- Related to the ongoing conversation or context" +:+ nl +:+
  "- Not include hashtags unless specifically requested" +:+ nl +:+
  "- Natural and conversational in tone" +:+ nl +:+ nl +:+
  "Return only the tweet text, no additional commentary.".

(** ** The TWITTER_POST action *)

Definition REQUIRED_TWITTER_FIELDS : list string :=
  ["TWITTER_USERNAME"; "TWITTER_EMAIL"; "TWITTER_PASSWORD"].

Record ConfigValidation : Type := mkConfigValidation {
  isValid : bool;
  cv_error : option string
}.

(** The [for ... of REQUIRED_TWITTER_FIELDS] loop, with its early return. *)
Fixpoint checkRequiredFields (worldSettings : gmap string Setting)
  (fields : list string) : ConfigValidation :=
  match fields with
  | [] => mkConfigValidation true None
  | field :: rest =>
      let missing :=
        match worldSettings !! field with
        | None => true
        | Some st =>
            match set_value st with SVNull => true | _ => false end
        end in
      if missing
      then mkConfigValidation false
             (Some ("Missing required Twitter configuration: " +:+ field))
      else checkRequiredFields worldSettings rest
  end.

Definition validateTwitterConfig (serverId : string) : M ConfigValidation :=
  tryCatch
    (worldSettings <- getWorldSettings serverId ;;
     match worldSettings with
     | None =>
         ret (mkConfigValidation false
                (Some "No settings state found for this server"))
     | Some ws => ret (checkRequiredFields ws REQUIRED_TWITTER_FIELDS)
     end)
    (fun error =>
       emit (ELog "error" "Error validating Twitter config:") ;;;
       ret (mkConfigValidation false
              (Some "Error validating Twitter configuration"))).

(** [manager.getClient(...)], then [manager.createClient(...)] when there is
    none yet. *)
Definition ensureTwitterClient (serverId : string) (vals : TwitterVals)
  : M TwitterClient :=
  manager <- gets w_twitter ;;
  match manager with
  | None => throw (Error "Twitter client manager not found")
  | Some mgr =>
      agentId <- gets w_agentId ;;
      match ts_getClient mgr serverId agentId with
      | Some client => ret client
      | None =>
          emit (ELog "info" "Creating new Twitter client for server") ;;;
          emit (ECreateClient serverId) ;;;
          created <- liftOutcome (ts_createClient mgr serverId vals) ;;
          match created with
          | Some client => ret client
          | None => throw (Error "Failed to create Twitter client")
          end
      end
  end.

(** [state.data.room ?? (await runtime.getDatabaseAdapter().getRoom(roomId))] *)
Definition resolveRoom (message : Memory) (state : State) : M JsVal :=
  match st_data state !! "room" with
  | Some v =>
      if nullish v
      then (r <- getRoom (m_roomId message) ;;
            ret (match r with Some x => JRoom x | None => JNull end))
      else ret v
  | None =>
      r <- getRoom (m_roomId message) ;;
      ret (match r with Some x => JRoom x | None => JNull end)
  end.

Definition isGroup (t : option ChannelType) : bool :=
  match t with Some c => ChannelType_eqb c GROUP | None => false end.

(** [useModel(modelType, { prompt })] *)
Definition useModel (modelType prompt : string) : M string :=
  fun w => (w_useModel w modelType prompt, w).

(** [obj.value] for [obj = worldSettings[key]]: a [TypeError] when the
    settings have no such entry. *)
Definition readSettingValue (worldSettings : gmap string Setting)
  (key : string) : M SettingValue :=
  match worldSettings !! key with
  | Some st => ret (set_value st)
  | None =>
      throw (TypeError "Cannot read properties of undefined (reading 'value')")
  end.

(** [v ?? undefined] *)
Definition nullToUndefined (v : SettingValue) : option SettingValue :=
  match v with SVNull => None | _ => Some v end.

(** [`${tweetId}`] *)
Definition tweetId_toString (tweetId : option string) : string :=
  match tweetId with Some i => i | None => "undefined" end.

(** [{ ...responseContent, text, actions }] *)
Definition withTextActions (c : Content) (text : string)
  (actions : list string) : Content :=
  mkContent (c_thought c) (c_plan c) (Some text) (Some actions)
    (c_providers c) (c_source c) (c_url c) (c_inReplyTo c) (c_tweetId c).

Module worker.

(** [worker.execute(runtime, options)]; [option] is [options.option].  The
    third argument a caller passes, the task, is not bound. *)
Definition execute (self : Worker) (option : string) : M unit :=
  let responseContent := wk_responseContent self in
  if String.eqb option "cancel" then
    callback (wk_callback self)
      (withTextActions responseContent "OK, I won't post it."
         ["TWITTER_POST_CANCELLED"])
  else if negb (String.eqb option "post") then
    callback (wk_callback self)
      (withTextActions responseContent
         "Bad choice. Should be 'post' or 'cancel'."
         ["TWITTER_POST_INVALID_OPTION"])
  else
    username <- readSettingValue (wk_worldSettings self) "TWITTER_USERNAME" ;;
    email <- readSettingValue (wk_worldSettings self) "TWITTER_EMAIL" ;;
    password <- readSettingValue (wk_worldSettings self) "TWITTER_PASSWORD" ;;
    secret <- readSettingValue (wk_worldSettings self) "TWITTER_2FA_SECRET" ;;
    let vals :=
      mkTwitterVals username email password (nullToUndefined secret) in
    client <- ensureTwitterClient (wk_serverId self) vals ;;
    emit (ESendTweet (wk_cleanTweet self)) ;;;
    tweetId <- liftOutcome (tc_sendTweet client (wk_cleanTweet self)) ;;
    let tweetUrl :=
      "https://twitter.com/" +:+ SettingValue_toString username +:+
      "/status/" +:+ tweetId_toString tweetId in
    callback (wk_callback self)
      (mkContent (c_thought responseContent) (c_plan responseContent)
         (Some tweetUrl) (c_actions responseContent)
         (c_providers responseContent) (c_source responseContent)
         (Some tweetUrl) (c_inReplyTo responseContent) tweetId).

(** [worker.validate(runtime, message, _state)] *)
Definition validate (self : Worker) (message : Memory) (_state : State)
  : M bool :=
  userRole <- getUserServerRole (m_entityId message) (wk_serverId self) ;;
  ret (String.eqb userRole "OWNER" || String.eqb userRole "ADMIN").

End worker.

Inductive HandlerResult : Type :=
| HFalse
| HUndefined
| HContent (c : Content).

Module twitterPostAction.

Definition name : string := "TWITTER_POST".

(** [twitterPostAction.validate] *)
Definition validate (message : Memory) (state : State) : M bool :=
  room <- resolveRoom message state ;;
  if negb (js_truthy room) then throw (Error "No room found") else
  if negb (isGroup (roomType room)) then ret false else
  match roomServerId room with
  | None => throw (Error "No server ID found")
  | Some serverId =>
      if negb (truthy serverId) then throw (Error "No server ID found") else
      pendingTasks <- getTasks (m_roomId message) ["TWITTER_POST"] ;;
      if (0 <? length pendingTasks)%nat then ret false else
      validation <- validateTwitterConfig serverId ;;
      if negb (isValid validation) then ret false else
      ret true
  end.

(** The task the handler registers for approval. *)
Definition approvalTask (message : Memory) : Task :=
  {| task_id := None;
     task_name := "Confirm Twitter Post";
     task_updatedAt := None;
     task_metadata :=
       Some (mkTaskMetadata None
               (Some [mkTaskOption "post" "Post the tweet to Twitter";
                      mkTaskOption "cancel"
                        "Cancel the tweet and don't post it"]));
     task_description := "Confirm the tweet to be posted.";
     task_roomId := Some (m_roomId message);
     task_worldId := None;
     task_tags := ["TWITTER_POST"; "AWAITING_CHOICE"] |}.

(** The memory written when the room is not a group. *)
Definition notGroupMemory (message : Memory) : Memory :=
  {| m_id := None;
     m_entityId := m_entityId message;
     m_agentId := m_agentId message;
     m_createdAt := None;
     m_content :=
       mkContent
         (Some "I tried to post a tweet but I'm not in a group scenario.")
         None None (Some ["TWITTER_POST_FAILED"]) None
         (c_source (m_content message)) None None None;
     m_embedding := None;
     m_roomId := m_roomId message;
     m_unique := None;
     m_similarity := None;
     m_metadata := Some (mkMetadata "TWITTER_POST" None None None None None) |}.

Definition notAuthorizedContent (message : Memory) : Content :=
  mkContent None None
    (Some "I'm sorry, but you're not authorized to post tweets on behalf of this org.")
    (Some ["TWITTER_POST_FAILED"]) None (c_source (m_content message))
    None None None.

(** [twitterPostAction.handler]; [cb] is the [callback] argument. *)
Definition handler (message : Memory) (state : State) (cb : CallbackId)
  : M HandlerResult :=
  tryCatch
    (room <- resolveRoom message state ;;
     if negb (js_truthy room) then throw (Error "No room found") else
     if negb (isGroup (roomType room)) then
       managers <- gets w_memoryManagers ;;
       if existsb (String.eqb "messages") managers then
         emit (ECreateMemory "messages" (notGroupMemory message)) ;;;
         ret HFalse
       else
         throw (TypeError
                  "Cannot read properties of null (reading 'createMemory')")
     else
     match roomServerId room with
     | None => throw (Error "No server ID found")
     | Some serverId =>
       if negb (truthy serverId) then throw (Error "No server ID found") else
       settings <- getWorldSettings serverId ;;
       match settings with
       | None => throw (Error "Twitter not configured for this server")
       | Some worldSettings =>
         prompt <- gets (fun w => w_composePrompt w state tweetGenerationTemplate) ;;
         tweetContent <- useModel "TEXT_SMALL" prompt ;;
         let cleanTweet := unescapeNewlines (stripQuotes (trim tweetContent)) in
         userRole <- getUserServerRole (m_entityId message) serverId ;;
         if negb (String.eqb userRole "OWNER")
            && negb (String.eqb userRole "ADMIN")
         then
           callback cb (notAuthorizedContent message) ;;;
           ret HUndefined
         else
         let responseContent :=
           mkContent None None
             (Some ("I'll tweet this:" +:+ nl +:+ nl +:+ cleanTweet))
             (Some ["TWITTER_POST"]) None (c_source (m_content message))
             None None None in
         existingTask <- getTask (m_roomId message) ;;
         match existingTask with
         | Some t => deleteTask (task_id t)
         | None => ret tt
         end ;;;
         let worker :=
           mkWorker "TWITTER_POST" cb responseContent worldSettings serverId
             cleanTweet in
         registered <- getTaskWorker "TWITTER_POST" ;;
         match registered with
         | None => registerTaskWorker worker
         | Some _ => ret tt
         end ;;;
         createTask (approvalTask message) ;;;
         (* responseContent.text += ...: the object is the one the worker's
            closures hold, so a worker registered above sees the new text *)
         let responseContent :=
           mkContent None None
             (Some ("I'll tweet this:" +:+ nl +:+ nl +:+ cleanTweet +:+
                    nl +:+ "Waiting for approval from " +:+
                    (if String.eqb userRole "OWNER" then "an admin"
                     else "an admin or boss")))
             (Some ["TWITTER_POST"]) None (c_source (m_content message))
             None None None in
         match registered with
         | None =>
             registerTaskWorker
               (mkWorker "TWITTER_POST" cb responseContent worldSettings
                  serverId cleanTweet)
         | Some _ => ret tt
         end ;;;
         callback cb
           (withTextActions responseContent
              (match c_text responseContent with Some t => t | None => "" end)
              ["TWITTER_POST_TASK_NEEDS_CONFIRM"]) ;;;
         getTasks (m_roomId message) ["TWITTER_POST"] ;;;
         emit (ELog "info" "TWITTER_POST_TASK_NEEDS_CONFIRM") ;;;
         ret (HContent responseContent)
       end
     end)
    (fun error =>
       emit (ELog "error" "Error in TWITTER_POST action:") ;;;
       throw error).

End twitterPostAction.

(** Modelled from the spec: the action dispatcher ([processActions]) is not
    in the sources.  It runs [validate] before [handler]; a [validate] that
    does not return true excludes the action for the turn, and a failure of
    either is caught and logged, not raised.  The result tells whether the
    handler was invoked. *)
Definition dispatchAction (message : Memory) (state : State)
  (cb : CallbackId) : M bool :=
  fun w =>
    match twitterPostAction.validate message state w with
    | (Ok true, w1) =>
        match twitterPostAction.handler message state cb w1 with
        | (Ok _, w2) => (Ok true, w2)
        | (Throw e, w2) =>
            (Ok true, set_trace (fun t => t ++ [ELog "error" (err_message e)]) w2)
        end
    | (Ok false, w1) => (Ok false, w1)
    | (Throw e, w1) =>
        (Ok false, set_trace (fun t => t ++ [ELog "error" (err_message e)]) w1)
    end.

(** ** Notions the properties are stated with *)

(** What a call appended to the trace. *)
Definition effectsOf {A} (m : M A) (w : World) : list Effect :=
  drop (length (w_trace w)) (w_trace (snd (m w))).

(** The worker's [execute] called [sendTweet]. *)
Definition tweetSent (self : Worker) (option : string) (w : World) : Prop :=
  exists tweet, In (ESendTweet tweet) (effectsOf (worker.execute self option) w).

(** The part of the post path before [sendTweet]: the four settings reads
    and [ensureTwitterClient]. *)
Definition obtainClient (self : Worker) : M TwitterClient :=
  username <- readSettingValue (wk_worldSettings self) "TWITTER_USERNAME" ;;
  email <- readSettingValue (wk_worldSettings self) "TWITTER_EMAIL" ;;
  password <- readSettingValue (wk_worldSettings self) "TWITTER_PASSWORD" ;;
  secret <- readSettingValue (wk_worldSettings self) "TWITTER_2FA_SECRET" ;;
  ensureTwitterClient (wk_serverId self)
    (mkTwitterVals username email password (nullToUndefined secret)).

Definition clientObtained (self : Worker) (w : World) : Prop :=
  exists client w1, obtainClient self w = (Ok client, w1).

(** The room holds a task tagged TWITTER_POST. *)
Definition hasPendingTwitterPost (w : World) (roomId : UUID) : Prop :=
  exists t, In t (w_tasks w) /\ task_roomId t = Some roomId /\
            In "TWITTER_POST" (task_tags t).




(** ** Sample data *)

Definition roomA : UUID := "aaaaaaaa-aaaa-4aaa-8aaa-aaaaaaaaaaaa".
Definition entityA : UUID := "eeeeeeee-eeee-4eee-8eee-eeeeeeeeeeee".
Definition agentA : UUID := "abababab-abab-4bab-8bab-abababababab".
Definition taskIdA : UUID := "77777777-7777-4777-8777-777777777777".

Definition groupRoom : Room :=
  mkRoom roomA None None "discord" GROUP None (Some "server-1") None.

Definition groupRoomNoServer : Room :=
  mkRoom roomA None None "discord" GROUP None None None.


Definition okSettings : gmap string Setting :=
  <["TWITTER_USERNAME" := mkSetting "Username" (SVString "bob") true]>
  (<["TWITTER_EMAIL" := mkSetting "Email" (SVString "bob@example.org") true]>
  (<["TWITTER_PASSWORD" := mkSetting "Password" (SVString "secret") true]>
  (<["TWITTER_2FA_SECRET" := mkSetting "2FA" SVNull false]> ∅))).

Definition sampleClient : TwitterClient :=
  mkTwitterClient (fun _ => Ok (Some "1234567890")).

Definition sampleService : TwitterService :=
  mkTwitterService (fun _ _ => Some sampleClient) (fun _ _ => Ok None).

Definition pendingTask : Task :=
  mkTask (Some taskIdA) "Confirm Twitter Post" None None
    "Confirm the tweet to be posted." (Some roomA) None
    ["TWITTER_POST"; "AWAITING_CHOICE"].

(** A runtime with one room, the given tasks and Twitter service, and a
    requester whose role is [role]. *)
Definition sampleWorld (r : Room) (tasks : list Task)
  (twitter : option TwitterService) (role : string) : World :=
  mkWorld agentA [r] tasks 0 (fun _ => taskIdA) ["messages"] ∅ twitter
    (fun _ => Ok (Some okSettings)) (fun _ _ => role) (fun _ template => template)
    (fun _ _ => Ok "Shipping day!") [].

Definition sampleMessage : Memory :=
  mkMemory None entityA (Some agentA) None
    (mkContent None None (Some "tweet that") None None (Some "discord") None
       None None)
    None roomA None None None.

Definition emptyState : State := mkState ∅ ∅ "".

Definition sampleParams : MessageParams :=
  {| p_id := None;
     p_entityId := "11111111-1111-1111-1111-111111111111";
     p_agentId := Some "22222222-2222-2222-2222-222222222222";
     p_roomId := "33333333-3333-3333-3333-333333333333";
     p_content :=
       mkContent None None (Some "hello") None None None None None None;
     p_embedding := None |}.

Definition sampleWorker : Worker :=
  mkWorker "TWITTER_POST" 7
    (mkContent None None (Some "I'll tweet this") (Some ["TWITTER_POST"]) None
       (Some "discord") None None None)
    okSettings "server-1" "Shipping day!".

(** The tasks of a room that carry the TWITTER_POST tag. *)
Definition pendingIn (ts : list Task) (roomId : UUID) : list Task :=
  List.filter
    (fun t => UUID_eqb_opt (task_roomId t) roomId && hasTag t "TWITTER_POST")
    ts.

(** No room holds more than one task tagged TWITTER_POST. *)
Definition atMostOnePending (w : World) : Prop :=
  forall roomId, length (pendingIn (w_tasks w) roomId) <= 1.

(** ** The State Composer *)

(** [interface ProviderResult] *)
Record ProviderResult : Type := mkProviderResult {
  pr_values : option (gmap string JsVal);
  pr_data : option (gmap string JsVal);
  pr_text : option string
}.

(** [interface Provider]; [prov_get] is [get] with the runtime fixed, and
    positions are taken to be integers. *)
Record Provider : Type := mkProvider {
  prov_name : string;
  prov_description : option string;
  prov_dynamic : option bool;
  prov_position : option Z;
  prov_private : option bool;
  prov_get : Memory -> State -> Outcome ProviderResult
}.

Module StateComposer.
Section Composer.

(** How a provider's text is worked into the digest; the specification
    leaves the rendering open. *)
Variable renderText : string -> string -> string.

(** A provider without a position sorts as 0. *)
Definition positionOf (p : Provider) : Z :=
  match prov_position p with Some z => z | None => 0%Z end.



Definition isPrivate (p : Provider) : bool :=
  match prov_private p with Some b => b | None => false end.

Definition named (names : list string) (p : Provider) : bool :=
  existsb (String.eqb (prov_name p)) names.

(** Modelled from the spec: the active provider set of a composition, which
    is not in the sources.  All registered non-private providers; with an
    include list, exactly the providers it names (private ones included);
    with a filter list, minus the providers it names. *)
Definition activeProviders (registered : list Provider)
  (filterList includeList : option (list string)) : list Provider :=
  let base :=
    match includeList with
    | Some names => List.filter (named names) registered
    | None => List.filter (fun p => negb (isPrivate p)) registered
    end in
  match filterList with
  | Some names => List.filter (fun p => negb (named names p)) base
  | None => base
  end.

(** Put [p] in front of the first provider whose position is not smaller. *)
Fixpoint insertByPosition (p : Provider) (l : list Provider) : list Provider :=
  match l with
  | [] => [p]
  | q :: rest =>
      if (positionOf p <=? positionOf q)%Z then p :: l
      else q :: insertByPosition p rest
  end.

(** Modelled from the spec: the order of invocation, which is not in the
    sources.  Ascending position; providers of equal position stay in
    registration order. *)
Fixpoint orderProviders (l : list Provider) : list Provider :=
  match l with
  | [] => []
  | p :: rest => insertByPosition p (orderProviders rest)
  end.

Definition providersToRun (registered : list Provider)
  (filterList includeList : option (list string)) : list Provider :=
  orderProviders (activeProviders registered filterList includeList).

Definition emptyResult : ProviderResult := mkProviderResult None None None.

(** Keys of the later map override those of the earlier one. *)
Definition overrideKeys (earlier : gmap string JsVal)
  (later : option (gmap string JsVal)) : gmap string JsVal :=
  match later with Some m => m ∪ earlier | None => earlier end.

(** Modelled from the spec: the merge of one contribution into the partial
    snapshot. *)
Definition mergeResult (st : State) (r : ProviderResult) : State :=
  mkState (overrideKeys (st_values st) (pr_values r))
    (overrideKeys (st_data st) (pr_data r))
    (match pr_text r with
     | Some t => renderText (st_text st) t
     | None => st_text st
     end).

(** Modelled from the spec: what a provider contributes at its turn; a [get]
    that throws is caught and counts as the empty contribution. *)
Definition contributionOf (p : Provider) (message : Memory) (partial : State)
  : ProviderResult :=
  match prov_get p message partial with
  | Ok r => r
  | Throw _ => emptyResult
  end.

(** Modelled from the spec: the providers are invoked one after the other,
    each on the snapshot merged so far. *)
Fixpoint runProviders (ps : list Provider) (message : Memory) (partial : State)
  : State :=
  match ps with
  | [] => partial
  | p :: rest =>
      runProviders rest message
        (mergeResult partial (contributionOf p message partial))
  end.

(** Modelled from the spec: [composeState(message, filterList, includeList)]
    of the runtime, whose implementation is not in the sources
    ([IAgentRuntime] only declares it). *)
Definition composeState (registered : list Provider) (message : Memory)
  (filterList includeList : option (list string)) : State :=
  runProviders (providersToRun registered filterList includeList) message
    (mkState ∅ ∅ "").




End Composer.
End StateComposer.

(** Providers that return the same values whatever the snapshot. *)
Definition constantProvider (name : string) (position : option Z)
  (vals : list (string * JsVal)) : Provider :=
  mkProvider name None None position None
    (fun _ _ => Ok (mkProviderResult (Some (list_to_map vals)) None None)).

Definition failingProvider (name : string) (position : option Z) : Provider :=
  mkProvider name None None position None
    (fun _ _ => Throw (Error "provider failed")).

Definition timeProvider : Provider :=
  constantProvider "time" (Some 0%Z) [("time", JStr "12:00")].

Definition personaProvider : Provider :=
  constantProvider "persona" (Some 1%Z)
    [("time", JStr "overridden"); ("name", JStr "Eliza")].

Definition lateProvider : Provider :=
  constantProvider "late" (Some 2%Z) [("time", JStr "late")].

Definition joinLines (digest text : string) : string :=
  digest +:+ nl +:+ text.




Definition lateResult : ProviderResult :=
  mkProviderResult (Some (list_to_map [("time", JStr "late")])) None None.

(** ** Type guards and helpers on memories *)

Definition isDocumentMetadata (metadata : MemoryMetadata) : bool :=
  String.eqb (md_type metadata) (MemoryType_value DOCUMENT).

Definition isFragmentMetadata (metadata : MemoryMetadata) : bool :=
  String.eqb (md_type metadata) (MemoryType_value FRAGMENT).

Definition isMessageMetadata (metadata : MemoryMetadata) : bool :=
  String.eqb (md_type metadata) (MemoryType_value MESSAGE).

Definition isDescriptionMetadata (metadata : MemoryMetadata) : bool :=
  String.eqb (md_type metadata) (MemoryType_value DESCRIPTION).

Definition isCustomMetadata (metadata : MemoryMetadata) : bool :=
  negb (String.eqb (md_type metadata) (MemoryType_value DOCUMENT)) &&
  negb (String.eqb (md_type metadata) (MemoryType_value FRAGMENT)) &&
  negb (String.eqb (md_type metadata) (MemoryType_value MESSAGE)) &&
  negb (String.eqb (md_type metadata) (MemoryType_value DESCRIPTION)).

(** [memory.metadata?.type === t] *)
Definition metadataTypeIs (memory : Memory) (t : MemoryType) : bool :=
  match m_metadata memory with
  | Some md => String.eqb (md_type md) (MemoryType_value t)
  | None => false
  end.

Definition isDocumentMemory (memory : Memory) : bool :=
  metadataTypeIs memory DOCUMENT.

Definition isFragmentMemory (memory : Memory) : bool :=
  metadataTypeIs memory FRAGMENT.

(** [getMemoryText(memory, defaultValue = "")]; [None] is the omitted
    argument. *)
Definition getMemoryText (memory : Memory) (defaultValue : option string)
  : string :=
  match c_text (m_content memory) with
  | Some t => t
  | None => match defaultValue with Some d => d | None => "" end
  end.

(** ** Service errors *)

(** What a [catch] clause can receive: an [Error] object or any other
    value. *)
Inductive Caught : Type :=
| CaughtError (e : JsError)
| CaughtValue (v : JsVal).

(** Decimal digits of a natural number, most significant first. *)
Fixpoint digitsOf (fuel n : nat) (acc : string) : string :=
  match fuel with
  | O => acc
  | S fuel' =>
      let d := ascii_of_nat (48 + n mod 10) in
      if (n / 10 =? 0)%nat then String d acc
      else digitsOf fuel' (n / 10) (String d acc)
  end.

(** [String(n)] on an integer. *)
Definition Z_toString (z : Z) : string :=
  match z with
  | Z0 => "0"
  | Zpos p => digitsOf (Pos.to_nat p) (Pos.to_nat p) ""
  | Zneg p => String "-" (digitsOf (Pos.to_nat p) (Pos.to_nat p) "")
  end.

(** [String(v)] *)
Definition JsVal_toString (v : JsVal) : string :=
  match v with
  | JUndefined => "undefined"
  | JNull => "null"
  | JBool true => "true"
  | JBool false => "false"
  | JNum n => Z_toString n
  | JStr s => s
  | JRoom _ => "[object Object]"
  end.

(** [interface ServiceError]; [details] is never set by this code. *)
Record ServiceError : Type := mkServiceError {
  se_code : string;
  se_message : string;
  se_cause : option JsError
}.

(** [createServiceError(error, code = "UNKNOWN_ERROR")] *)
Definition createServiceError (error : Caught) (code : option string)
  : ServiceError :=
  let code := match code with Some c => c | None => "UNKNOWN_ERROR" end in
  match error with
  | CaughtError e => mkServiceError code (err_message e) (Some e)
  | CaughtValue v => mkServiceError code (JsVal_toString v) None
  end.

(** ** The message manager *)

(** [MemoryRetrievalOptions | UnifiedMemoryOptions] as one object: [limit]
    is [None] when the key is absent and [Some None] when it is present
    with the value [undefined]. *)
Record MemoryOptions : Type := mkMemoryOptions {
  mo_roomId : UUID;
  mo_count : option JsNumber;
  mo_limit : option (option JsNumber);
  mo_unique : option bool;
  mo_start : option JsNumber;
  mo_end : option JsNumber;
  mo_agentId : option UUID
}.

(** The two methods of [IMemoryManager] that [getMessageManager] calls. *)
Record MemoryManager : Type := mkMemoryManager {
  mm_getMemories : MemoryOptions -> list Memory;
  mm_createMemory : Memory -> UUID
}.

(** The parameter object of [createMessage]. *)
Record CreateMessageParams : Type := mkCreateMessageParams {
  cm_entityId : UUID;
  cm_roomId : UUID;
  cm_content : Content
}.

(** The object [getMessageManager] returns: the two specialised methods
    (the others are inherited from the base manager). *)
Record MessageManager : Type := mkMessageManager {
  createMessage : JsNumber -> JsNumber -> CreateMessageParams -> Memory * UUID;
  getRecentMessages : MemoryOptions -> list Memory
}.

(** The options object handed to [manager.getMemories]. *)
Definition normalizeOptions (options : MemoryOptions) : MemoryOptions :=
  match mo_limit options with
  | Some limit =>
      (* 'limit' in options *)
      mkMemoryOptions (mo_roomId options) limit None (mo_unique options)
        (mo_start options) (mo_end options) (mo_agentId options)
  | None => options
  end.

(** [getMessageManager(runtime)]; [manager] is what
    [runtime.getMemoryManager(MemoryType.MESSAGE)] gives.  [createMessage]
    returns the memory it hands to [manager.createMemory] beside the
    identifier that call returns; its two numbers are the clock readings of
    [createMessageMemory]. *)
Definition getMessageManager (agentId : UUID) (manager : option MemoryManager)
  : option MessageManager :=
  match manager with
  | None => None
  | Some manager =>
      Some
        {| createMessage := fun now1 now2 params =>
             let message :=
               createMessageMemory now1 now2
                 (mkMessageParams None (cm_entityId params) (Some agentId)
                    (cm_roomId params) (cm_content params) None) in
             (message, mm_createMemory manager message);
           getRecentMessages := fun options =>
             let opts := normalizeOptions options in
             let memories := mm_getMemories manager opts in
             List.filter isMessageMemory memories |}
  end.

(** How many of the given tests hold. *)
Definition countTrue (bs : list bool) : nat :=
  length (List.filter (fun b => b) bs).


(** The string with every character replaced by its image. *)
Fixpoint mapString (f : ascii -> ascii) (s : string) : string :=
  match s with
  | EmptyString => EmptyString
  | String c rest => String (f c) (mapString f rest)
  end.



Definition sampleManager : MemoryManager :=
  mkMemoryManager
    (fun _ =>
       [createMessageMemory 1000%Z 1001%Z sampleParams;
        mkMemory None entityA None None emptyContent None roomA None None None])
    (fun _ => taskIdA).

Definition sampleOptions : MemoryOptions :=
  mkMemoryOptions roomA (Some 3%Z) (Some (Some 10%Z)) None None None None.

(** The settings have an entry with a non-null value for the field. *)
Definition fieldConfigured (worldSettings : gmap string Setting)
  (field : string) : Prop :=
  exists st, worldSettings !! field = Some st /\ set_value st <> SVNull.



Definition settingsWithout2FA : gmap string Setting :=
  <["TWITTER_USERNAME" := mkSetting "Username" (SVString "bob") true]>
  (<["TWITTER_EMAIL" := mkSetting "Email" (SVString "bob@example.org") true]>
  (<["TWITTER_PASSWORD" := mkSetting "Password" (SVString "secret") true]> ∅)).

(** ** The collection logger ([class Logger] of the Twitter pipeline) *)

(** [interface CollectionStats]; counters and dates are integers, and
    [tweetsPerMinute] is the number 0 until the first update writes the
    string [toFixed] gives. *)
Inductive RateText : Type :=
| RateNumber (n : JsNumber)
| RateString (s : string).

Record CollectionStats : Type := mkCollectionStats {
  oldestTweet : option JsNumber;
  newestTweet : option JsNumber;
  rateLimitHits : JsNumber;
  resets : JsNumber;
  batchesWithNewTweets : JsNumber;
  totalBatches : JsNumber;
  startTime : JsNumber;
  tweetsPerMinute : RateText;
  currentDelay : JsNumber;
  lastResetTime : option JsNumber
}.

(** [interface CollectionProgress]; [None] is a missing (or null) field. *)
Record CollectionProgress : Type := mkCollectionProgress {
  totalCollected : JsNumber;
  newInBatch : option JsNumber;
  batchSize : option JsNumber;
  oldestTweetDate : option JsNumber;
  newestTweetDate : option JsNumber;
  progressDelay : option JsNumber;
  isReset : option bool
}.

(** [interface CollectionStatus] *)
Record CollectionStatus : Type := mkCollectionStatus {
  cs_totalCollected : JsNumber;
  cs_newInBatch : JsNumber;
  cs_batchSize : JsNumber;
  cs_isReset : bool
}.

(** The static fields of the class that the statistics use. *)
Record LoggerState : Type := mkLoggerState {
  lastUpdate : JsNumber;
  collectionStats : CollectionStats
}.

Module Logger.
Section Stats.

(** [(totalCollected / runningTime).toFixed(1)] for a running time of
    [elapsed] milliseconds: floating-point, so taken as given. *)
Variable rateToFixed : JsNumber -> JsNumber -> string.

(** A number that is not falsy: present and not 0. *)
Definition truthyNumber (n : option JsNumber) : bool :=
  match n with Some z => negb (Z.eqb z 0) | None => false end.

(** [n || 0] *)
Definition orZero (n : option JsNumber) : JsNumber :=
  match n with Some z => z | None => 0%Z end.

(** The statistics object of the field initialiser and of [reset], at clock
    reading [now]. *)
Definition freshStats (now : JsNumber) : CollectionStats :=
  mkCollectionStats None None 0%Z 0%Z 0%Z 0%Z now (RateNumber 0%Z) 0%Z None.

(** [Logger.reset()] *)
Definition reset (now : JsNumber) (_ : LoggerState) : LoggerState :=
  mkLoggerState now (freshStats now).

(** [Logger.recordRateLimit()] *)
Definition recordRateLimit (now : JsNumber) (lg : LoggerState) : LoggerState :=
  let st := collectionStats lg in
  mkLoggerState (lastUpdate lg)
    (mkCollectionStats (oldestTweet st) (newestTweet st)
       (rateLimitHits st + 1)%Z (resets st) (batchesWithNewTweets st)
       (totalBatches st) (startTime st) (tweetsPerMinute st)
       (currentDelay st) (Some now)).

(** The new bound of the date range: [!current ? given : pick(current,
    given)], under [if (given)]. *)
Definition trackDate (pick : Z -> Z -> Z) (current given : option JsNumber)
  : option JsNumber :=
  if truthyNumber given then
    match given with
    | Some g =>
        if truthyNumber current
        then match current with Some c => Some (pick c g) | None => Some g end
        else Some g
    | None => current
    end
  else current.

(** [Logger.updateCollectionProgress(progress)] at clock reading [now]; the
    result holds the status handed to [displayCollectionStatus], when it is
    called. *)
Definition updateCollectionProgress (now : JsNumber)
  (progress : CollectionProgress) (lg : LoggerState)
  : LoggerState * option CollectionStatus :=
  let st := collectionStats lg in
  let total := (totalBatches st + 1)%Z in
  let withNew :=
    if match newInBatch progress with Some n => (0 <? n)%Z | None => false end
    then (batchesWithNewTweets st + 1)%Z else batchesWithNewTweets st in
  let resets' :=
    if match isReset progress with Some b => b | None => false end
    then (resets st + 1)%Z else resets st in
  let stats :=
    mkCollectionStats
      (trackDate Z.min (oldestTweet st) (oldestTweetDate progress))
      (trackDate Z.max (newestTweet st) (newestTweetDate progress))
      (rateLimitHits st) resets' withNew total (startTime st)
      (RateString (rateToFixed (totalCollected progress) (now - startTime st)%Z))
      (orZero (progressDelay progress)) (lastResetTime st) in
  if (1000 <? now - lastUpdate lg)%Z then
    (mkLoggerState now stats,
     Some (mkCollectionStatus (totalCollected progress)
             (orZero (newInBatch progress)) (orZero (batchSize progress))
             (match isReset progress with Some b => b | None => false end)))
  else (mkLoggerState (lastUpdate lg) stats, None).

(** The calls a pipeline makes on the logger, with the clock reading of
    each. *)
Inductive LoggerCall : Type :=
| CallUpdate (now : JsNumber) (progress : CollectionProgress)
| CallRateLimit (now : JsNumber)
| CallReset (now : JsNumber).


Definition step (lg : LoggerState) (c : LoggerCall)
  : LoggerState * option (JsNumber * CollectionStatus) :=
  match c with
  | CallUpdate now progress =>
      match updateCollectionProgress now progress lg with
      | (lg', Some status) => (lg', Some (now, status))
      | (lg', None) => (lg', None)
      end
  | CallRateLimit now => (recordRateLimit now lg, None)
  | CallReset now => (reset now lg, None)
  end.

(** The state after a sequence of calls, and the displays made on the way,
    oldest first. *)
Fixpoint run (lg : LoggerState) (calls : list LoggerCall)
  : LoggerState * list (JsNumber * CollectionStatus) :=
  match calls with
  | [] => (lg, [])
  | c :: rest =>
      let '(lg1, shown) := step lg c in
      let '(lg2, shownRest) := run lg1 rest in
      (lg2, match shown with Some d => d :: shownRest | None => shownRest end)
  end.

(** The class as loaded at clock reading [now]. *)
Definition initial (now : JsNumber) : LoggerState :=
  mkLoggerState now (freshStats now).

End Stats.
End Logger.

(** The counters of the statistics are consistent. *)
Definition countersOk (st : CollectionStats) : Prop :=
  (0 <= batchesWithNewTweets st <= totalBatches st)%Z /\
  (0 <= resets st <= totalBatches st)%Z /\
  (0 <= rateLimitHits st)%Z.

(** The number of updates since the last reset. *)
Fixpoint updatesSinceReset (n : Z) (calls : list Logger.LoggerCall) : Z :=
  match calls with
  | [] => n
  | Logger.CallUpdate _ _ :: rest => updatesSinceReset (n + 1)%Z rest
  | Logger.CallRateLimit _ :: rest => updatesSinceReset n rest
  | Logger.CallReset _ :: rest => updatesSinceReset 0%Z rest
  end.

(** The dates a selector reads from the updates since the last reset, the
    falsy ones left out; latest first. *)
Fixpoint datesSinceReset (sel : CollectionProgress -> option JsNumber)
  (seen : list Z) (calls : list Logger.LoggerCall) : list Z :=
  match calls with
  | [] => seen
  | Logger.CallUpdate _ progress :: rest =>
      datesSinceReset sel
        (if Logger.truthyNumber (sel progress)
         then match sel progress with Some d => d :: seen | None => seen end
         else seen) rest
  | Logger.CallRateLimit _ :: rest => datesSinceReset sel seen rest
  | Logger.CallReset _ :: rest => datesSinceReset sel [] rest
  end.


(** The bound kept for a date range, against the dates seen. *)
Definition tracks (le : Z -> Z -> Prop) (bound : option JsNumber)
  (seen : list Z) : Prop :=
  bound <> Some 0%Z /\
  (forall d, In d seen -> exists m, bound = Some m /\ le m d) /\
  (forall m, bound = Some m -> In m seen).


Definition sampleProgress (new : Z) (oldest newest : option Z)
  : CollectionProgress :=
  mkCollectionProgress 40%Z (Some new) (Some 20%Z) oldest newest None None.

Definition sampleCalls : list Logger.LoggerCall :=
  [Logger.CallUpdate 500%Z (sampleProgress 5%Z (Some 900%Z) (Some 950%Z));
   Logger.CallUpdate 1600%Z (sampleProgress 0%Z (Some 700%Z) (Some 990%Z));
   Logger.CallRateLimit 1700%Z;
   Logger.CallUpdate 2700%Z (sampleProgress 3%Z (Some 800%Z) None)].

Definition sampleRate (total elapsed : JsNumber) : string := "0.0".

(** ** The socket manager ([class WebSocketsManager] of the client) *)

(** Every call and every socket event is handled as a task of its own: a
    send that waits on a resolved promise goes on before the next call or
    event is handled, a send that waits on a pending promise stays suspended
    until the promise is resolved. *)

Module WebSocketsManager.

(** [WebSocket.readyState] *)
Inductive ReadyState : Type := CONNECTING | OPEN | CLOSING | CLOSED.

Definition isOpen (s : ReadyState) : bool :=
  match s with OPEN => true | _ => false end.

(** [SOCKET_MESSAGE_TYPE.ROOM_JOINING] *)
Definition ROOM_JOINING : Z := 1%Z.

(** A message payload: the room-joining object the manager builds itself,
    or any other object a caller passes (as its JSON text). *)
Inductive Payload : Type :=
| RoomJoining (type : Z) (agentId roomId : string)
| OtherPayload (json : string).

(** A [WebSocket] object with what the closures of its handlers capture;
    [so_disconnectAllHandler] tells that [disconnectAll] has replaced its
    [onclose] handler. *)
Record Socket : Type := mkSocket {
  so_agentId : string;
  so_roomId : string;
  so_readyState : ReadyState;
  so_disconnectAllHandler : bool
}.

(** What the manager sends and prints. *)
Inductive Output : Type :=
| Sent (socket : nat) (message : Payload)
| Warn (text : string)
| Log (text : string)
| LogError (text : string).

(** A [sendMessage] call suspended at [await readyPromise]. *)
Record Suspended : Type := mkSuspended {
  su_promise : nat;
  su_socket : nat;
  su_agentId : string;
  su_message : Payload
}.

(** The manager: its three maps ([sockets] in insertion order, as [forEach]
    visits it), the socket objects by reference, the promises resolved so
    far, the suspended sends, the next free reference and the output. *)
Record Manager : Type := mkManager {
  sockets : list (string * nat);
  readyPromises : gmap string nat;
  resolveReadyMap : gmap string nat;
  heap : gmap nat Socket;
  resolved : list nat;
  suspended : list Suspended;
  nextRef : nat;
  output : list Output
}.

(** [new WebSocketsManager()] *)
Definition new : Manager := mkManager [] ∅ ∅ ∅ [] [] 0 [].

(** [Map.get] and [Map.delete] on the insertion-ordered map. *)
Fixpoint mapGet (key : string) (m : list (string * nat)) : option nat :=
  match m with
  | [] => None
  | (k, v) :: rest => if String.eqb k key then Some v else mapGet key rest
  end.

Definition mapDelete (key : string) (m : list (string * nat))
  : list (string * nat) :=
  List.filter (fun kv => negb (String.eqb (fst kv) key)) m.

Definition print (o : Output) (m : Manager) : Manager :=
  mkManager (sockets m) (readyPromises m) (resolveReadyMap m) (heap m)
    (resolved m) (suspended m) (nextRef m) (output m ++ [o]).

Definition setReadyState (socket : nat) (s : ReadyState) (m : Manager)
  : Manager :=
  mkManager (sockets m) (readyPromises m) (resolveReadyMap m)
    (match heap m !! socket with
     | Some so =>
         <[socket := mkSocket (so_agentId so) (so_roomId so) s
                       (so_disconnectAllHandler so)]> (heap m)
     | None => heap m
     end)
    (resolved m) (suspended m) (nextRef m) (output m).

(** [socket.close()]: a socket that is connecting or open starts closing. *)
Definition closeSocket (socket : nat) (m : Manager) : Manager :=
  match heap m !! socket with
  | Some so =>
      match so_readyState so with
      | CONNECTING | OPEN => setReadyState socket CLOSING m
      | _ => m
      end
  | None => m
  end.

(** The three [delete] calls for an agent. *)
Definition forget (agentId : string) (m : Manager) : Manager :=
  mkManager (mapDelete agentId (sockets m)) (delete agentId (readyPromises m))
    (delete agentId (resolveReadyMap m)) (heap m) (resolved m) (suspended m)
    (nextRef m) (output m).

(** The end of [sendMessage], after the [await]. *)
Definition deliver (socket : nat) (agentId : string) (message : Payload)
  (m : Manager) : Manager :=
  match heap m !! socket with
  | Some so =>
      if isOpen (so_readyState so) then print (Sent socket message) m
      else print (Warn ("WebSocket for agent " +:+ agentId +:+ " is not open.")) m
  | None => m
  end.

(** [sendMessage(agentId, message)]: with a promise that is not resolved
    yet the call stays suspended. *)
Definition sendMessage (agentId : string) (message : Payload) (m : Manager)
  : Manager :=
  match mapGet agentId (sockets m) with
  | None =>
      print (Warn ("Cannot send message, WebSocket for agent " +:+ agentId
                   +:+ " does not exist.")) m
  | Some socket =>
      match readyPromises m !! agentId with
      | Some promise =>
          if existsb (Nat.eqb promise) (resolved m)
          then deliver socket agentId message m
          else mkManager (sockets m) (readyPromises m) (resolveReadyMap m)
                 (heap m) (resolved m)
                 (suspended m ++ [mkSuspended promise socket agentId message])
                 (nextRef m) (output m)
      | None => deliver socket agentId message m
      end
  end.

(** The suspended sends of a promise go on, oldest first, when it is
    resolved. *)
Fixpoint resume (promise : nat) (calls : list Suspended) (m : Manager)
  : Manager :=
  match calls with
  | [] => m
  | c :: rest =>
      if Nat.eqb (su_promise c) promise
      then resume promise rest
             (deliver (su_socket c) (su_agentId c) (su_message c) m)
      else resume promise rest m
  end.

Definition resolvePromise (promise : nat) (m : Manager) : Manager :=
  if existsb (Nat.eqb promise) (resolved m) then m
  else
    let waiting := suspended m in
    resume promise waiting
      (mkManager (sockets m) (readyPromises m) (resolveReadyMap m) (heap m)
         (promise :: resolved m)
         (List.filter (fun c => negb (Nat.eqb (su_promise c) promise)) waiting)
         (nextRef m) (output m)).

(** [connect(agentId, roomId)] *)
Definition connect (agentId roomId : string) (m : Manager) : Manager :=
  match mapGet agentId (sockets m) with
  | Some _ =>
      print (Warn ("WebSocket for agent " +:+ agentId +:+ " already exists.")) m
  | None =>
      let socket := nextRef m in
      let promise := S (nextRef m) in
      mkManager (sockets m ++ [(agentId, socket)])
        (<[agentId := promise]> (readyPromises m))
        (<[agentId := promise]> (resolveReadyMap m))
        (<[socket := mkSocket agentId roomId CONNECTING false]> (heap m))
        (resolved m) (suspended m) (S (S (nextRef m))) (output m)
  end.

(** [socket.onopen]; the event comes to a connecting socket, which is open
    when its handler runs. *)
Definition onopen (socket : nat) (m : Manager) : Manager :=
  match heap m !! socket with
  | Some so =>
      match so_readyState so with
      | CONNECTING =>
          let m := setReadyState socket OPEN m in
          let m := print (Log ("WebSocket connected for agent "
                               +:+ so_agentId so)) m in
          let m :=
            match resolveReadyMap m !! so_agentId so with
            | Some promise => resolvePromise promise m
            | None => m
            end in
          sendMessage (so_agentId so)
            (RoomJoining ROOM_JOINING (so_agentId so) (so_roomId so)) m
      | _ => m
      end
  | None => m
  end.

(** [socket.onclose], as [connect] set it or as [disconnectAll] replaced
    it; the event comes once, to a socket that is not closed yet. *)
Definition onclose (socket : nat) (m : Manager) : Manager :=
  match heap m !! socket with
  | Some so =>
      match so_readyState so with
      | CLOSED => m
      | _ =>
          let m := setReadyState socket CLOSED m in
          let m :=
            print (Log (if so_disconnectAllHandler so
                        then "WebSocket for agent " +:+ so_agentId so
                             +:+ " disconnected."
                        else "WebSocket closed for agent " +:+ so_agentId so))
              m in
          forget (so_agentId so) m
      end
  | None => m
  end.

(** [socket.onerror] and [socket.onmessage] only print. *)
Definition onerror (socket : nat) (m : Manager) : Manager :=
  match heap m !! socket with
  | Some so =>
      print (LogError ("WebSocket error for agent " +:+ so_agentId so)) m
  | None => m
  end.

Definition onmessage (socket : nat) (m : Manager) : Manager :=
  match heap m !! socket with
  | Some so => print (Log ("Message for agent " +:+ so_agentId so)) m
  | None => m
  end.

(** [disconnect(agentId)] *)
Definition disconnect (agentId : string) (m : Manager) : Manager :=
  match mapGet agentId (sockets m) with
  | Some socket =>
      let m := closeSocket socket m in
      let m := forget agentId m in
      print (Log ("WebSocket for agent " +:+ agentId +:+ " disconnected.")) m
  | None =>
      print (Warn ("No WebSocket found for agent " +:+ agentId)) m
  end.

(** The body of the [forEach] of [disconnectAll]. *)
Definition disconnectOne (entry : string * nat) (m : Manager) : Manager :=
  let '(agentId, socket) := entry in
  let m := print (Log ("Closing WebSocket for agent " +:+ agentId)) m in
  match heap m !! socket with
  | Some so =>
      if isOpen (so_readyState so) then
        closeSocket socket
          (mkManager (sockets m) (readyPromises m) (resolveReadyMap m)
             (<[socket := mkSocket (so_agentId so) (so_roomId so)
                            (so_readyState so) true]> (heap m))
             (resolved m) (suspended m) (nextRef m) (output m))
      else
        print (Warn ("WebSocket for agent " +:+ agentId
                     +:+ " is already closed or closing.")) m
  | None => m
  end.

(** [disconnectAll()] *)
Definition disconnectAll (m : Manager) : Manager :=
  fold_left (fun acc entry => disconnectOne entry acc) (sockets m) m.

(** What happens to a manager: the calls of its users and the events of its
    sockets. *)
Inductive Event : Type :=
| DoConnect (agentId roomId : string)
| DoSend (agentId : string) (message : Payload)
| DoDisconnect (agentId : string)
| DoDisconnectAll
| SocketOpened (socket : nat)
| SocketClosed (socket : nat)
| SocketError (socket : nat)
| SocketMessage (socket : nat).

Definition step (m : Manager) (ev : Event) : Manager :=
  match ev with
  | DoConnect agentId roomId => connect agentId roomId m
  | DoSend agentId message => sendMessage agentId message m
  | DoDisconnect agentId => disconnect agentId m
  | DoDisconnectAll => disconnectAll m
  | SocketOpened socket => onopen socket m
  | SocketClosed socket => onclose socket m
  | SocketError socket => onerror socket m
  | SocketMessage socket => onmessage socket m
  end.

Definition run (m : Manager) (events : list Event) : Manager :=
  fold_left step events m.

(** The three maps hold the same agents, each once, every registered socket
    is a socket of its agent, and the two promise maps agree. *)
Definition inSync (m : Manager) : Prop :=
  NoDup (List.map fst (sockets m)) /\
  (forall agentId, is_Some (mapGet agentId (sockets m)) <->
                   is_Some (readyPromises m !! agentId)) /\
  (forall agentId, readyPromises m !! agentId = resolveReadyMap m !! agentId) /\
  (forall agentId socket,
     mapGet agentId (sockets m) = Some socket ->
     exists so, heap m !! socket = Some so /\ so_agentId so = agentId).

(** Every message sent so far went to a socket that was open then: the
    sockets that messages of the output went to. *)
Definition sentSockets (outs : list Output) : list nat :=
  flat_map (fun o => match o with Sent s _ => [s] | _ => [] end) outs.

End WebSocketsManager.

(** What an operation that only prints, sends or changes a socket's state
    keeps: the three maps, the references, and the agent of every socket. *)
Definition keepsMaps (m m' : WebSocketsManager.Manager) : Prop :=
  WebSocketsManager.sockets m' = WebSocketsManager.sockets m /\
  WebSocketsManager.readyPromises m' = WebSocketsManager.readyPromises m /\
  WebSocketsManager.resolveReadyMap m' = WebSocketsManager.resolveReadyMap m /\
  WebSocketsManager.nextRef m' = WebSocketsManager.nextRef m /\
  (forall socket,
     option_map WebSocketsManager.so_agentId (WebSocketsManager.heap m' !! socket) =
     option_map WebSocketsManager.so_agentId (WebSocketsManager.heap m !! socket)).

(** References below [nextRef] only are in use. *)
Definition refsFresh (m : WebSocketsManager.Manager) : Prop :=
  forall socket, is_Some (WebSocketsManager.heap m !! socket) ->
                 socket < WebSocketsManager.nextRef m.

(** The socket is open in the manager. *)
Definition socketOpen (m : WebSocketsManager.Manager) (socket : nat) : Prop :=
  exists so, WebSocketsManager.heap m !! socket = Some so /\
             WebSocketsManager.so_readyState so = WebSocketsManager.OPEN.

(** What a step added to the output. *)
Definition newOutput (m m' : WebSocketsManager.Manager)
  : list WebSocketsManager.Output :=
  drop (length (WebSocketsManager.output m)) (WebSocketsManager.output m').

(** An operation that only sends or warns: the manager keeps its maps and
    sockets, and what it sent went to open sockets. *)
Definition onlySends (m m' : WebSocketsManager.Manager) : Prop :=
  WebSocketsManager.sockets m' = WebSocketsManager.sockets m /\
  WebSocketsManager.readyPromises m' = WebSocketsManager.readyPromises m /\
  WebSocketsManager.resolveReadyMap m' = WebSocketsManager.resolveReadyMap m /\
  WebSocketsManager.nextRef m' = WebSocketsManager.nextRef m /\
  WebSocketsManager.heap m' = WebSocketsManager.heap m /\
  exists l,
    WebSocketsManager.output m' = WebSocketsManager.output m ++ l /\
    forall socket, In socket (WebSocketsManager.sentSockets l) ->
                   socketOpen m socket.


(** * Properties *)

(** ** asUUID *)

Lemma isHexDigitb_spec c : isHexDigitb c = true <-> isHexDigit c.
Proof.
  unfold isHexDigitb, isHexDigit. rewrite existsb_exists. split.
  - intros [x [Hin Heq]]. apply Ascii.eqb_eq in Heq. now subst.
  - intros Hin. exists c. split; [assumption | apply Ascii.eqb_refl].
Qed.

Lemma classMatch_hex c : classMatch true hexRanges c = isHexDigitb c.
Proof. destruct c as [[] [] [] [] [] [] [] []]; vm_compute; reflexivity. Qed.

Lemma charEq_hyphen c : charEq true "-" c = true <-> c = "-"%char.
Proof.
  split.
  - destruct c as [[] [] [] [] [] [] [] []]; vm_compute; congruence.
  - intros ->. reflexivity.
Qed.

Lemma append_empty_r (s : string) : s +:+ "" = s.
Proof. induction s as [|c s IH]; [reflexivity | simpl; now rewrite IH]. Qed.

Lemma takeClass_hex_inv n : forall s s',
  takeClass true hexRanges n s = Some s' ->
  exists pre, s = pre +:+ s' /\ hexGroup n pre.
Proof.
  induction n as [|n IH]; intros s s' H; cbn [takeClass] in H.
  - inversion H; subst. exists "". split; [reflexivity|]. split; [reflexivity|exact I].
  - destruct s as [|c s0]; [discriminate|].
    destruct (classMatch true hexRanges c) eqn:Hc; [|discriminate H].
    destruct (IH _ _ H) as [pre [-> [Hlen Hall]]].
    exists (String c pre). split; [reflexivity|]. split; simpl.
    + now rewrite Hlen.
    + split; [|assumption].
      apply isHexDigitb_spec. now rewrite <- classMatch_hex.
Qed.

Lemma takeClass_hex_app n : forall pre rest,
  hexGroup n pre -> takeClass true hexRanges n (pre +:+ rest) = Some rest.
Proof.
  induction n as [|n IH]; intros pre rest [Hlen Hall].
  - destruct pre; [reflexivity | discriminate].
  - destruct pre as [|c pre]; [discriminate|].
    cbn [String.length allChars] in *. destruct Hall as [Hc Hall].
    apply isHexDigitb_spec in Hc.
    change (String c pre +:+ rest) with (String c (pre +:+ rest)).
    cbn [takeClass]. rewrite classMatch_hex, Hc.
    apply IH. split; [lia | assumption].
Qed.

Ltac step_class H :=
  let a := fresh "g" in
  let Hg := fresh "Hg" in
  let E := fresh "E" in
  match type of H with
  | context [takeClass true hexRanges ?n ?s] =>
      destruct (takeClass true hexRanges n s) eqn:E; [|discriminate H];
      apply takeClass_hex_inv in E; destruct E as [a [-> Hg]]
  end.

Ltac step_hyphen H :=
  let c := fresh "c" in
  let E := fresh "E" in
  match type of H with
  | match ?s with EmptyString => _ | String _ _ => _ end = true =>
      destruct s as [|c ?]; [discriminate H|];
      destruct (charEq true "-" c) eqn:E; [|discriminate H];
      apply charEq_hyphen in E; subst c
  end.

Lemma matchItems_class n rest pre s :
  hexGroup n pre ->
  matchItems true (ClassRep hexRanges n :: rest) (pre +:+ s) =
  matchItems true rest s.
Proof. intros H. cbn [matchItems]. now rewrite (takeClass_hex_app _ _ _ H). Qed.

Lemma matchItems_hyphen rest s :
  matchItems true (Lit "-" :: rest) ("-" +:+ s) = matchItems true rest s.
Proof. reflexivity. Qed.

Lemma test_UUID_REGEX s : test UUID_REGEX s = true <-> uuidShaped s.
Proof.
  unfold test, UUID_REGEX; cbn [re_items re_ignoreCase]. split.
  - cbn [matchItems]. intros H.
    step_class H. step_hyphen H. step_class H. step_hyphen H.
    step_class H. step_hyphen H. step_class H. step_hyphen H.
    step_class H.
    match type of H with
    | match ?x with EmptyString => _ | String _ _ => _ end = true =>
        destruct x; [|discriminate H]
    end.
    exists g, g0, g1, g2, g3.
    split; [|tauto].
    now rewrite append_empty_r.
  - intros (a & b & c & d & e & -> & Ha & Hb & Hc & Hd & He).
    rewrite (matchItems_class _ _ _ _ Ha), matchItems_hyphen.
    rewrite (matchItems_class _ _ _ _ Hb), matchItems_hyphen.
    rewrite (matchItems_class _ _ _ _ Hc), matchItems_hyphen.
    rewrite (matchItems_class _ _ _ _ Hd), matchItems_hyphen.
    rewrite <- (append_empty_r e).
    now rewrite (matchItems_class _ _ _ _ He).
Qed.

(** C8: [asUUID] throws exactly on the empty string and on strings that are
    not of the 8-4-4-4-12 hexadecimal shape (either letter case); the error
    is [Error("Invalid UUID format: " + id)]; every other string is returned
    unchanged. *)
Theorem asUUID_fail_fast (s : string) :
  ((exists e, asUUID s = Throw e) <-> (s = "" \/ ~ uuidShaped s)) /\
  (forall e, asUUID s = Throw e ->
     e = Error ("Invalid UUID format: " +:+ s) /\
     String.prefix "Invalid UUID format" (err_message e) = true) /\
  (~ (s = "" \/ ~ uuidShaped s) -> asUUID s = Ok s).
Proof.
  unfold asUUID, truthy. rewrite negb_involutive.
  destruct (String.eqb s "") eqn:He; cbn [orb].
  - apply String.eqb_eq in He. subst s. repeat split.
    + intros _. now left.
    + intros _. eexists; reflexivity.
    + now inversion H.
    + now inversion H.
    + intros H. exfalso. apply H. now left.
  - apply String.eqb_neq in He.
    destruct (test UUID_REGEX s) eqn:Ht; cbn [negb].
    + apply test_UUID_REGEX in Ht. repeat split.
      * intros [e H]. discriminate H.
      * intros [H|H]; contradiction.
      * discriminate H.
      * discriminate H.
    + assert (Hn : ~ uuidShaped s).
      { intros H. apply test_UUID_REGEX in H. congruence. }
      repeat split.
      * intros _. now right.
      * intros _. eexists; reflexivity.
      * now inversion H.
      * now inversion H.
      * intros H. exfalso. apply H. now right.
Qed.

Example asUUID_lower :
  asUUID "123e4567-e89b-12d3-a456-426614174000" =
  Ok "123e4567-e89b-12d3-a456-426614174000".
Proof. reflexivity. Qed.

Example asUUID_upper :
  asUUID "123E4567-E89B-12D3-A456-426614174ABC" =
  Ok "123E4567-E89B-12D3-A456-426614174ABC".
Proof. reflexivity. Qed.

Example asUUID_short :
  asUUID "123e4567-e89b-12d3-a456-42661417400" =
  Throw (Error "Invalid UUID format: 123e4567-e89b-12d3-a456-42661417400").
Proof. reflexivity. Qed.

Example asUUID_g :
  asUUID "g23e4567-e89b-12d3-a456-426614174000" =
  Throw (Error "Invalid UUID format: g23e4567-e89b-12d3-a456-426614174000").
Proof. reflexivity. Qed.

Example asUUID_empty : asUUID "" = Throw (Error "Invalid UUID format: ").
Proof. reflexivity. Qed.

(** ** Message memories *)

Lemma wellTypedUUID_truthy (u : UUID) : wellTypedUUID u -> truthy u = true.
Proof. destruct u; [unfold wellTypedUUID; simpl; lia | reflexivity]. Qed.

(** C9: a memory built by [createMessageMemory] from parameters of the
    declared type passes [isMessageMemory]; its metadata type is
    [MemoryType.MESSAGE], and its scope is "private" when [agentId] is
    provided and "shared" when it is not. *)
Theorem createMessageMemory_isMessageMemory
  (now1 now2 : JsNumber) (params : MessageParams) :
  wellTypedParams params ->
  isMessageMemory (createMessageMemory now1 now2 params) = true /\
  (exists md,
     m_metadata (createMessageMemory now1 now2 params) = Some md /\
     md_type md = MemoryType_value MESSAGE /\
     md_scope md =
       Some (match p_agentId params with Some _ => private | None => shared end)).
Proof.
  intros [[txt Htxt] Hid]. split.
  - unfold isMessageMemory, createMessageMemory; cbn. now rewrite Htxt.
  - eexists. split; [reflexivity|]. split; [reflexivity|]. cbn.
    destruct (p_agentId params) as [a|] eqn:Ha; cbn; [|reflexivity].
    now rewrite (wellTypedUUID_truthy a (Hid a eq_refl)).
Qed.

Lemma sampleParams_wellTyped : wellTypedParams sampleParams.
Proof.
  split; [eexists; reflexivity|].
  intros a Ha. inversion Ha. unfold wellTypedUUID. simpl. lia.
Defined.

Lemma createMessageMemory_isMessageMemory_witness :
  wellTypedParams sampleParams /\
  isMessageMemory (createMessageMemory 1000%Z 1001%Z sampleParams) = true.
Proof.
  split; [exact sampleParams_wellTyped|].
  exact (proj1 (createMessageMemory_isMessageMemory 1000%Z 1001%Z sampleParams
                  sampleParams_wellTyped)).
Defined.

(** ** Result helpers *)

(** C10: the algebra of [success] and [failure]. *)
Theorem result_helpers_algebra {T U E F : Type}
  (v d : T) (f : T -> U) (e : E) (g : E -> F) :
  (Success.unwrapOr (success v) d = v /\
   Success.value (Success.map (success v) f) = f v /\
   Success.isSuccess (Success.map (success v) f) = true /\
   Success.isFailure (Success.map (success v) f) = false /\
   Success.isSuccess (success v) = true /\
   Success.isFailure (success v) = false) /\
  (Failure.unwrapOr (failure e) d = d /\
   Failure.error (Failure.mapError (failure e) g) = g e /\
   Failure.isFailure (Failure.mapError (failure e) g) = true /\
   Failure.isSuccess (Failure.mapError (failure e) g) = false /\
   Failure.isFailure (failure e) = true /\
   Failure.isSuccess (failure e) = false).
Proof. repeat split. Qed.

(** ** The TWITTER_POST worker *)


Lemma string_eqb_true (a b : string) : String.eqb a b = true <-> a = b.
Proof. apply String.eqb_eq. Qed.

Lemma string_eqb_false (a b : string) : String.eqb a b = false <-> a <> b.
Proof. apply String.eqb_neq. Qed.

Lemma execute_cancel (self : Worker) (w : World) :
  worker.execute self "cancel" w =
  (Ok tt,
   set_trace (fun t => t ++
     [ECallback (wk_callback self)
        (withTextActions (wk_responseContent self) "OK, I won't post it."
           ["TWITTER_POST_CANCELLED"])]) w).
Proof. reflexivity. Qed.

Lemma execute_invalid (self : Worker) (option : string) (w : World) :
  option <> "cancel" -> option <> "post" ->
  worker.execute self option w =
  (Ok tt,
   set_trace (fun t => t ++
     [ECallback (wk_callback self)
        (withTextActions (wk_responseContent self)
           "Bad choice. Should be 'post' or 'cancel'."
           ["TWITTER_POST_INVALID_OPTION"])]) w).
Proof.
  intros Hc Hp. unfold worker.execute.
  apply string_eqb_false in Hc. apply string_eqb_false in Hp.
  now rewrite Hc, Hp.
Qed.

(** The post path, as [obtainClient] followed by the send and the reply. *)
Lemma execute_post (self : Worker) (w : World) :
  worker.execute self "post" w =
  match obtainClient self w with
  | (Throw e, w1) => (Throw e, w1)
  | (Ok client, w1) =>
      let w2 := set_trace (fun t => t ++ [ESendTweet (wk_cleanTweet self)]) w1 in
      match tc_sendTweet client (wk_cleanTweet self) with
      | Throw e => (Throw e, w2)
      | Ok tweetId =>
          let username :=
            match wk_worldSettings self !! "TWITTER_USERNAME" with
            | Some st => set_value st
            | None => SVNull
            end in
          let tweetUrl :=
            "https://twitter.com/" +:+ SettingValue_toString username +:+
            "/status/" +:+ tweetId_toString tweetId in
          (Ok tt,
           set_trace (fun t => t ++
             [ECallback (wk_callback self)
                (mkContent (c_thought (wk_responseContent self))
                   (c_plan (wk_responseContent self)) (Some tweetUrl)
                   (c_actions (wk_responseContent self))
                   (c_providers (wk_responseContent self))
                   (c_source (wk_responseContent self)) (Some tweetUrl)
                   (c_inReplyTo (wk_responseContent self)) tweetId)]) w2)
      end
  end.
Proof.
  unfold worker.execute, obtainClient. cbn [String.eqb Ascii.eqb Bool.eqb negb].
  change (String.eqb "post" "cancel") with false.
  change (String.eqb "post" "post") with true. cbn [negb].
  unfold readSettingValue, bind, ret, throw.
  destruct (wk_worldSettings self !! "TWITTER_USERNAME") as [u|]; [|reflexivity].
  destruct (wk_worldSettings self !! "TWITTER_EMAIL") as [e|]; [|reflexivity].
  destruct (wk_worldSettings self !! "TWITTER_PASSWORD") as [pw|]; [|reflexivity].
  destruct (wk_worldSettings self !! "TWITTER_2FA_SECRET") as [sec|]; [|reflexivity].
  destruct (ensureTwitterClient _ _ w) as [[client|e0] w1]; [|reflexivity].
  unfold emit, modify, liftOutcome, callback, emit, modify. cbn.
  destruct (tc_sendTweet client (wk_cleanTweet self)); reflexivity.
Qed.

Lemma ensureTwitterClient_frame (serverId : string) (vals : TwitterVals)
  (w : World) :
  exists l,
    w_trace (snd (ensureTwitterClient serverId vals w)) = w_trace w ++ l /\
    (forall t, ~ In (ESendTweet t) l) /\
    w_tasks (snd (ensureTwitterClient serverId vals w)) = w_tasks w.
Proof.
  unfold ensureTwitterClient, bind, gets, ret, throw, emit, modify, liftOutcome.
  destruct (w_twitter w) as [mgr|]; cbn.
  - destruct (ts_getClient mgr serverId (w_agentId w)) as [c|]; cbn.
    + exists []. rewrite app_nil_r. repeat split. intros t [].
    + exists [ELog "info" "Creating new Twitter client for server";
              ECreateClient serverId].
      destruct (ts_createClient mgr serverId vals) as [[c|]|e]; cbn;
        rewrite <- app_assoc; (split; [reflexivity|]);
        (split; [|reflexivity]); intros t [H|[H|[]]]; discriminate H.
  - exists []. rewrite app_nil_r. repeat split. intros t [].
Qed.

Lemma obtainClient_frame (self : Worker) (w : World) :
  exists l,
    w_trace (snd (obtainClient self w)) = w_trace w ++ l /\
    (forall t, ~ In (ESendTweet t) l) /\
    w_tasks (snd (obtainClient self w)) = w_tasks w.
Proof.
  assert (Hnil : exists l : list Effect,
            w_trace w = w_trace w ++ l /\ (forall t, ~ In (ESendTweet t) l) /\
            w_tasks w = w_tasks w).
  { exists []. rewrite app_nil_r. repeat split. intros t []. }
  unfold obtainClient, readSettingValue, bind, ret, throw.
  destruct (wk_worldSettings self !! "TWITTER_USERNAME"); [|exact Hnil].
  destruct (wk_worldSettings self !! "TWITTER_EMAIL"); [|exact Hnil].
  destruct (wk_worldSettings self !! "TWITTER_PASSWORD"); [|exact Hnil].
  destruct (wk_worldSettings self !! "TWITTER_2FA_SECRET"); [|exact Hnil].
  apply ensureTwitterClient_frame.
Qed.

(** What [execute] appends on the post path. *)
Lemma execute_post_effects (self : Worker) (w : World) :
  exists l,
    (forall t, ~ In (ESendTweet t) l) /\
    match obtainClient self w with
    | (Throw _, _) => effectsOf (worker.execute self "post") w = l
    | (Ok client, _) =>
        exists rest,
          effectsOf (worker.execute self "post") w =
          l ++ ESendTweet (wk_cleanTweet self) :: rest /\
          (forall t, ~ In (ESendTweet t) rest)
    end.
Proof.
  destruct (obtainClient_frame self w) as [l [Htr [Hno _]]].
  exists l. split; [exact Hno|].
  unfold effectsOf. rewrite execute_post.
  destruct (obtainClient self w) as [[client|e] w1] eqn:Ho; cbn in Htr.
  - destruct (tc_sendTweet client (wk_cleanTweet self)) as [tid|e] eqn:Hs;
      cbn; rewrite Htr.
    + eexists. rewrite <- !app_assoc, drop_app_length. cbn.
      split; [reflexivity|]. intros t [H|[]]. discriminate H.
    + exists []. rewrite <- !app_assoc, drop_app_length.
      split; [reflexivity|]. intros t [].
  - cbn. rewrite Htr. apply drop_app_length.
Qed.

Lemma tweetSent_post (self : Worker) (w : World) :
  tweetSent self "post" w <-> clientObtained self w.
Proof.
  unfold tweetSent, clientObtained.
  destruct (execute_post_effects self w) as [l [Hno H]].
  destruct (obtainClient self w) as [[client|e] w1] eqn:Ho.
  - destruct H as [rest [-> _]]. split.
    + intros _. now exists client, w1.
    + intros _. exists (wk_cleanTweet self). apply in_or_app. right. now left.
  - rewrite H. split.
    + intros [t Ht]. now apply Hno in Ht.
    + intros [client [w2 Hc]]. discriminate Hc.
Qed.

Lemma tweetSent_only_post (self : Worker) (option : string) (w : World) :
  tweetSent self option w -> option = "post".
Proof.
  intros [t Ht].
  destruct (String.eqb option "cancel") eqn:Hc.
  - apply string_eqb_true in Hc. subst option.
    unfold effectsOf in Ht. rewrite execute_cancel in Ht. cbn in Ht.
    rewrite drop_app_length in Ht. destruct Ht as [H|[]]. discriminate H.
  - destruct (String.eqb option "post") eqn:Hp.
    + now apply string_eqb_true in Hp.
    + apply string_eqb_false in Hc. apply string_eqb_false in Hp.
      unfold effectsOf in Ht. rewrite (execute_invalid _ _ _ Hc Hp) in Ht.
      cbn in Ht. rewrite drop_app_length in Ht.
      destruct Ht as [H|[]]. discriminate H.
Qed.

Lemma tweetSent_text (self : Worker) (option : string) (w : World) (t : string) :
  In (ESendTweet t) (effectsOf (worker.execute self option) w) ->
  t = wk_cleanTweet self.
Proof.
  intros Ht.
  assert (Hp : option = "post") by (apply (tweetSent_only_post self option w); now exists t).
  subst option.
  destruct (execute_post_effects self w) as [l [Hno H]].
  destruct (obtainClient self w) as [[client|e] w1].
  - destruct H as [rest [Heq Hrest]]. rewrite Heq in Ht.
    apply in_app_or in Ht. destruct Ht as [Ht|[Ht|Ht]].
    + now apply Hno in Ht.
    + now inversion Ht.
    + now apply Hrest in Ht.
  - rewrite H in Ht. now apply Hno in Ht.
Qed.

(** C1 (amended): [execute] with "cancel" makes the one TWITTER_POST_CANCELLED
    callback and nothing else; with any option other than "cancel" and "post"
    it makes the one TWITTER_POST_INVALID_OPTION callback and nothing else;
    [sendTweet] is called, with the cleaned tweet, exactly when the option is
    "post" and the worker obtains a Twitter client. *)
Theorem execute_option_paths (self : Worker) (option : string) (w : World) :
  (option = "cancel" ->
   worker.execute self option w =
   (Ok tt,
    set_trace (fun t => t ++
      [ECallback (wk_callback self)
         (withTextActions (wk_responseContent self) "OK, I won't post it."
            ["TWITTER_POST_CANCELLED"])]) w) /\
   ~ tweetSent self option w) /\
  (option <> "cancel" -> option <> "post" ->
   worker.execute self option w =
   (Ok tt,
    set_trace (fun t => t ++
      [ECallback (wk_callback self)
         (withTextActions (wk_responseContent self)
            "Bad choice. Should be 'post' or 'cancel'."
            ["TWITTER_POST_INVALID_OPTION"])]) w) /\
   ~ tweetSent self option w) /\
  (tweetSent self option w <-> option = "post" /\ clientObtained self w) /\
  (forall t, In (ESendTweet t) (effectsOf (worker.execute self option) w) ->
             t = wk_cleanTweet self).
Proof.
  split; [|split; [|split]].
  - intros ->. split; [apply execute_cancel|].
    intros H. apply tweetSent_only_post in H. discriminate H.
  - intros Hc Hp. split; [now apply execute_invalid|].
    intros H. now apply tweetSent_only_post in H.
  - split.
    + intros H. assert (Hp := tweetSent_only_post _ _ _ H). subst option.
      split; [reflexivity|]. now apply tweetSent_post.
    + intros [-> H]. now apply tweetSent_post.
  - intros t. apply tweetSent_text.
Qed.

Lemma execute_option_paths_witness :
  worker.execute sampleWorker "cancel"
    (sampleWorld groupRoom [pendingTask] (Some sampleService) "OWNER") =
  (Ok tt,
   set_trace (fun t => t ++
     [ECallback 7
        (withTextActions (wk_responseContent sampleWorker)
           "OK, I won't post it." ["TWITTER_POST_CANCELLED"])])
     (sampleWorld groupRoom [pendingTask] (Some sampleService) "OWNER")).
Proof.
  exact (proj1 (proj1 (execute_option_paths sampleWorker "cancel"
                  (sampleWorld groupRoom [pendingTask] (Some sampleService)
                     "OWNER")) eq_refl)).
Defined.

(** When the client is obtained: the four settings entries exist, the
    twitter service is registered, and it has a client for the server or
    creates one. *)
Lemma clientObtained_iff (self : Worker) (w : World) :
  clientObtained self w <->
  exists u e p s mgr,
    wk_worldSettings self !! "TWITTER_USERNAME" = Some u /\
    wk_worldSettings self !! "TWITTER_EMAIL" = Some e /\
    wk_worldSettings self !! "TWITTER_PASSWORD" = Some p /\
    wk_worldSettings self !! "TWITTER_2FA_SECRET" = Some s /\
    w_twitter w = Some mgr /\
    (is_Some (ts_getClient mgr (wk_serverId self) (w_agentId w)) \/
     exists c,
       ts_createClient mgr (wk_serverId self)
         (mkTwitterVals (set_value u) (set_value e) (set_value p)
            (nullToUndefined (set_value s))) = Ok (Some c)).
Proof.
  unfold clientObtained, obtainClient, readSettingValue, ensureTwitterClient,
    bind, ret, throw, gets, emit, modify, liftOutcome.
  destruct (wk_worldSettings self !! "TWITTER_USERNAME") as [u|];
    [|split; [intros (c & w1 & H); discriminate H
             |intros (u & e & p & s0 & mgr & H & _); discriminate H]].
  destruct (wk_worldSettings self !! "TWITTER_EMAIL") as [e|];
    [|split; [intros (c & w1 & H); discriminate H
             |intros (u' & e & p & s0 & mgr & _ & H & _); discriminate H]].
  destruct (wk_worldSettings self !! "TWITTER_PASSWORD") as [pw|];
    [|split; [intros (c & w1 & H); discriminate H
             |intros (u' & e' & p & s0 & mgr & _ & _ & H & _); discriminate H]].
  destruct (wk_worldSettings self !! "TWITTER_2FA_SECRET") as [sec|];
    [|split; [intros (c & w1 & H); discriminate H
             |intros (u' & e' & p & s0 & mgr & _ & _ & _ & H & _);
              discriminate H]].
  destruct (w_twitter w) as [mgr|]; cbn;
    [|split; [intros (c & w1 & H); discriminate H
             |intros (u' & e' & p & s0 & mgr & _ & _ & _ & _ & H & _);
              discriminate H]].
  destruct (ts_getClient mgr (wk_serverId self) (w_agentId w)) as [c|] eqn:Hg;
    cbn.
  - split.
    + intros _. exists u, e, pw, sec, mgr. repeat split. left. rewrite Hg. eauto.
    + intros _. eauto.
  - destruct (ts_createClient mgr (wk_serverId self) _) as [[c|]|err] eqn:Hc;
      cbn.
    + split.
      * intros _. exists u, e, pw, sec, mgr. repeat split. right. eauto.
      * intros _. eauto.
    + split.
      * intros (c & w1 & H). discriminate H.
      * intros (u' & e' & p & s0 & mgr' & Hu & He & Hp & Hs & Hm & Hor).
        inversion Hu; inversion He; inversion Hp; inversion Hs; inversion Hm.
        subst. destruct Hor as [[c Hx]|[c Hx]].
        -- rewrite Hg in Hx. discriminate Hx.
        -- rewrite Hc in Hx. discriminate Hx.
    + split.
      * intros (c & w1 & H). discriminate H.
      * intros (u' & e' & p & s0 & mgr' & Hu & He & Hp & Hs & Hm & Hor).
        inversion Hu; inversion He; inversion Hp; inversion Hs; inversion Hm.
        subst. destruct Hor as [[c Hx]|[c Hx]].
        -- rewrite Hg in Hx. discriminate Hx.
        -- rewrite Hc in Hx. discriminate Hx.
Qed.

Lemma execute_post_without_service :
  worker.execute sampleWorker "post"
    (sampleWorld groupRoom [pendingTask] None "OWNER") =
  (Throw (Error "Twitter client manager not found"),
   sampleWorld groupRoom [pendingTask] None "OWNER").
Proof. vm_compute. reflexivity. Qed.

(** C1 as stated fails: with option "post" and no twitter service registered,
    [ensureTwitterClient] throws and no tweet is sent. *)
Lemma tweet_sent_iff_post_fails :
  ~ (tweetSent sampleWorker "post"
       (sampleWorld groupRoom [pendingTask] None "OWNER") <-> "post" = "post").
Proof.
  intros [_ H]. destruct (H eq_refl) as [t Ht].
  unfold effectsOf in Ht. rewrite execute_post_without_service in Ht.
  cbn in Ht. exact Ht.
Qed.

(** C4: [execute] never touches the task store, whatever the option: the
    task it resolves is still there when it completes. *)
Theorem worker_execute_keeps_tasks (self : Worker) (option : string)
  (w : World) :
  w_tasks (snd (worker.execute self option w)) = w_tasks w.
Proof.
  destruct (String.eqb option "cancel") eqn:Hc.
  - apply string_eqb_true in Hc. subst. now rewrite execute_cancel.
  - destruct (String.eqb option "post") eqn:Hp.
    + apply string_eqb_true in Hp. subst. rewrite execute_post.
      destruct (obtainClient_frame self w) as [l [_ [_ Ht]]].
      destruct (obtainClient self w) as [[client|e] w1]; cbn in Ht |- *.
      * destruct (tc_sendTweet client (wk_cleanTweet self)); exact Ht.
      * exact Ht.
    + apply string_eqb_false in Hc. apply string_eqb_false in Hp.
      now rewrite (execute_invalid _ _ _ Hc Hp).
Qed.

(** The pending task after a resolution with "cancel" and with "post". *)
Example pending_task_survives_resolution :
  let w := sampleWorld groupRoom [pendingTask] (Some sampleService) "OWNER" in
  fst (getTasks roomA ["TWITTER_POST"] (snd (worker.execute sampleWorker "cancel" w)))
  = Ok [pendingTask] /\
  fst (getTasks roomA ["TWITTER_POST"] (snd (worker.execute sampleWorker "post" w)))
  = Ok [pendingTask] /\
  fst (twitterPostAction.validate sampleMessage emptyState
         (snd (worker.execute sampleWorker "post" w))) = Ok false.
Proof. vm_compute. repeat split. Qed.


Example worker_validate_admin :
  fst (worker.validate sampleWorker sampleMessage emptyState
         (sampleWorld groupRoom [pendingTask] None "ADMIN")) = Ok true /\
  fst (worker.validate sampleWorker sampleMessage emptyState
         (sampleWorld groupRoom [] None "NONE")) = Ok false.
Proof. split; reflexivity. Qed.

(** ** The action's validate *)

Lemma resolveRoom_frame (msg : Memory) (st : State) (w : World) :
  exists v, resolveRoom msg st w = (Ok v, w).
Proof.
  unfold resolveRoom, getRoom, bind, gets, ret.
  destruct (st_data st !! "room") as [v|]; [destruct (nullish v)|]; eauto.
Qed.

Lemma getTasks_frame (roomId : UUID) (tags : list string) (w : World) :
  snd (getTasks roomId tags w) = w.
Proof. reflexivity. Qed.

Lemma getTasks_pending (w : World) (roomId : UUID) :
  hasPendingTwitterPost w roomId ->
  exists t ts, getTasks roomId ["TWITTER_POST"] w = (Ok (t :: ts), w).
Proof.
  intros (t & Hin & Hroom & Htag).
  unfold getTasks, gets.
  set (p := fun t0 : Task =>
              UUID_eqb_opt (task_roomId t0) roomId &&
              forallb (hasTag t0) ["TWITTER_POST"]).
  assert (Hp : In t (List.filter p (w_tasks w))).
  { apply filter_In. split; [exact Hin|]. subst p. cbn.
    unfold UUID_eqb_opt. rewrite Hroom, String.eqb_refl. cbn.
    rewrite andb_true_r. unfold hasTag. apply existsb_exists.
    exists "TWITTER_POST". split; [exact Htag | apply String.eqb_refl]. }
  destruct (List.filter p (w_tasks w)) as [|t0 ts]; [destruct Hp|].
  now exists t0, ts.
Qed.

Lemma validate_pending (msg : Memory) (st : State) (w : World) :
  hasPendingTwitterPost w (m_roomId msg) ->
  exists r,
    twitterPostAction.validate msg st w = (r, w) /\
    (r = Ok false \/ r = Throw (Error "No room found") \/
     r = Throw (Error "No server ID found")).
Proof.
  intros Hp. unfold twitterPostAction.validate.
  destruct (resolveRoom_frame msg st w) as [v Hv].
  unfold bind at 1. rewrite Hv.
  destruct (js_truthy v); cbn [negb]; [|eexists; split; [reflexivity|tauto]].
  destruct (isGroup (roomType v)); cbn [negb];
    [|eexists; split; [reflexivity|tauto]].
  destruct (roomServerId v) as [sid|]; [|eexists; split; [reflexivity|tauto]].
  destruct (truthy sid); cbn [negb]; [|eexists; split; [reflexivity|tauto]].
  destruct (getTasks_pending _ _ Hp) as (t & ts & Hg).
  unfold bind. rewrite Hg. eexists; split; [reflexivity|tauto].
Qed.

(** ** The action's handler *)

Ltac run_monad :=
  unfold callback, getWorldSettings, useModel, getUserServerRole, getTask,
    deleteTask, getTaskWorker, registerTaskWorker, createTask, getTasks in *;
  unfold emit, liftOutcome in *;
  unfold bind, ret, throw, gets, modify in *;
  cbv beta in *.



(** The worker a proposing handler leaves in the registry: its own, bound
    to the server of the room it ran for, when none was registered; the one
    that was there otherwise. *)
Lemma handler_registers_worker (msg : Memory) (st : State) (cb : CallbackId)
  (w w' : World) (c : Content) :
  twitterPostAction.handler msg st cb w = (Ok (HContent c), w') ->
  match w_workers w !! "TWITTER_POST" with
  | None =>
      exists v sid wk,
        resolveRoom msg st w = (Ok v, w) /\ roomServerId v = Some sid /\
        w_workers w' !! "TWITTER_POST" = Some wk /\
        wk_serverId wk = sid /\ wk_callback wk = cb /\
        wk_responseContent wk = c
  | Some old => w_workers w' = w_workers w
  end.
Proof.
  unfold twitterPostAction.handler, tryCatch.
  destruct (resolveRoom_frame msg st w) as [v Hv].
  unfold bind at 1. rewrite Hv. intros H.
  destruct (js_truthy v); cbn [negb] in H; [|discriminate H].
  destruct (isGroup (roomType v)); cbn [negb] in H.
  - destruct (roomServerId v) as [sid|] eqn:Hsid; [|discriminate H].
    destruct (truthy sid); cbn [negb] in H; [|discriminate H].
    run_monad.
    destruct (w_getWorldSettings w sid) as [[ws|]|e]; try discriminate H.
    cbv beta iota in H.
    destruct (w_useModel w "TEXT_SMALL" _) as [txt|e]; try discriminate H.
    cbv beta iota in H.
    destruct (negb _ && negb _); [discriminate H|].
    destruct (List.find _ (w_tasks w)) as [t|]; cbn in H;
      destruct (w_workers w !! "TWITTER_POST") as [old|] eqn:Hw; cbn in H;
      inversion H; subst; cbn; try reflexivity;
      (exists v, sid; eexists; split; [reflexivity|]; split; [exact Hsid|];
       split; [apply lookup_insert_eq|]; repeat split).
  - run_monad.
    destruct (existsb _ (w_memoryManagers w)); cbn in H; discriminate H.
Qed.





Example handler_not_authorized_run :
  twitterPostAction.handler sampleMessage emptyState 7
    (sampleWorld groupRoom [] None "NONE") =
  (Ok HUndefined,
   set_trace (fun t => t ++
     [ECallback 7 (twitterPostAction.notAuthorizedContent sampleMessage)])
     (sampleWorld groupRoom [] None "NONE")).
Proof. vm_compute. reflexivity. Qed.

(** ** Pending tasks and the action path *)

(** C3 (amended): when the message's room already holds a task tagged
    TWITTER_POST, [validate] never returns true: it returns false, or throws
    "No room found" or "No server ID found" before it gets to the check; it
    returns false whenever the room resolves to a room record that is not a
    group or has a server id.  The dispatcher then does not invoke the
    handler, and the task store is unchanged. *)
Theorem validate_rejects_when_pending (msg : Memory) (st : State)
  (cb : CallbackId) (w : World) :
  hasPendingTwitterPost w (m_roomId msg) ->
  (exists r,
     twitterPostAction.validate msg st w = (r, w) /\
     (r = Ok false \/ r = Throw (Error "No room found") \/
      r = Throw (Error "No server ID found"))) /\
  (forall rm,
     resolveRoom msg st w = (Ok (JRoom rm), w) ->
     room_type rm <> GROUP \/ truthy_opt (room_serverId rm) = true ->
     twitterPostAction.validate msg st w = (Ok false, w)) /\
  fst (dispatchAction msg st cb w) = Ok false /\
  w_tasks (snd (dispatchAction msg st cb w)) = w_tasks w /\
  w_workers (snd (dispatchAction msg st cb w)) = w_workers w.
Proof.
  intros Hp. destruct (validate_pending msg st w Hp) as [r [Hv Hr]].
  split; [eauto|]. split.
  - intros rm Hrm Hcond.
    unfold twitterPostAction.validate. unfold bind at 1. rewrite Hrm.
    cbn [js_truthy negb roomType roomServerId isGroup].
    destruct (ChannelType_eqb (room_type rm) GROUP) eqn:Hg; cbn [negb];
      [|reflexivity].
    destruct Hcond as [Hng|Hsid].
    + destruct (room_type rm); try discriminate Hg. now contradiction Hng.
    + destruct (room_serverId rm) as [sid|]; [|discriminate Hsid].
      cbn in Hsid. rewrite Hsid. cbn [negb].
      destruct (getTasks_pending _ _ Hp) as (t & ts & Hgt).
      unfold bind. now rewrite Hgt.
  - unfold dispatchAction. rewrite Hv.
    destruct Hr as [-> | [-> | ->]]; repeat split.
Qed.

Lemma samplePending :
  hasPendingTwitterPost (sampleWorld groupRoom [pendingTask] None "OWNER")
    (m_roomId sampleMessage).
Proof.
  exists pendingTask. split; [now left|]. split; [reflexivity|now left].
Defined.

Lemma validate_rejects_when_pending_witness :
  hasPendingTwitterPost (sampleWorld groupRoom [pendingTask] None "OWNER")
    (m_roomId sampleMessage) /\
  fst (dispatchAction sampleMessage emptyState 7
         (sampleWorld groupRoom [pendingTask] None "OWNER")) = Ok false.
Proof.
  split; [exact samplePending|].
  exact (proj1 (proj2 (proj2
    (validate_rejects_when_pending sampleMessage emptyState 7
       (sampleWorld groupRoom [pendingTask] None "OWNER") samplePending)))).
Defined.

(** C3 as stated fails: a group room without a server id that holds a
    pending task makes [validate] throw instead of returning false. *)
Lemma validate_pending_throws :
  hasPendingTwitterPost
    (sampleWorld groupRoomNoServer [pendingTask] None "OWNER")
    (m_roomId sampleMessage) /\
  fst (twitterPostAction.validate sampleMessage emptyState
         (sampleWorld groupRoomNoServer [pendingTask] None "OWNER")) =
    Throw (Error "No server ID found") /\
  fst (twitterPostAction.validate sampleMessage emptyState
         (sampleWorld groupRoomNoServer [pendingTask] None "OWNER")) <>
    Ok false.
Proof.
  split.
  - exists pendingTask. split; [now left|]. split; [reflexivity|now left].
  - split; [vm_compute; reflexivity|]. vm_compute. discriminate.
Qed.

(** ** At most one pending confirmation per room through the dispatcher *)

Lemma pendingIn_filter (f : Task -> bool) (ts : list Task) (roomId : UUID) :
  length (pendingIn (List.filter f ts) roomId) <= length (pendingIn ts roomId).
Proof.
  unfold pendingIn.
  induction ts as [|t ts IH]; [reflexivity|]. cbn [List.filter].
  destruct (f t); cbn [List.filter];
    destruct (UUID_eqb_opt (task_roomId t) roomId && hasTag t "TWITTER_POST");
    cbn [length]; lia.
Qed.

Lemma pendingIn_app (ts1 ts2 : list Task) (roomId : UUID) :
  pendingIn (ts1 ++ ts2) roomId = pendingIn ts1 roomId ++ pendingIn ts2 roomId.
Proof. unfold pendingIn. apply List.filter_app. Qed.

Lemma getTasks_pendingIn (roomId : UUID) (w : World) :
  getTasks roomId ["TWITTER_POST"] w = (Ok (pendingIn (w_tasks w) roomId), w).
Proof.
  unfold getTasks, gets, pendingIn. do 2 f_equal.
  apply List.filter_ext. intros t. cbn. now rewrite andb_true_r.
Qed.

(** [validate] leaves the task store alone, and returns true only when the
    room has no pending task. *)
Lemma validate_true_no_pending (msg : Memory) (st : State) (w w1 : World) :
  twitterPostAction.validate msg st w = (Ok true, w1) ->
  w_tasks w1 = w_tasks w /\ pendingIn (w_tasks w) (m_roomId msg) = [].
Proof.
  unfold twitterPostAction.validate.
  destruct (resolveRoom_frame msg st w) as [v Hv].
  unfold bind at 1. rewrite Hv.
  destruct (js_truthy v); cbn [negb]; [|discriminate].
  destruct (isGroup (roomType v)); cbn [negb]; [|discriminate].
  destruct (roomServerId v) as [sid|]; [|discriminate].
  destruct (truthy sid); cbn [negb]; [|discriminate].
  unfold bind at 1. rewrite getTasks_pendingIn.
  destruct (pendingIn (w_tasks w) (m_roomId msg)) as [|t ts]; cbn;
    [|discriminate].
  unfold validateTwitterConfig, tryCatch. run_monad.
  destruct (w_getWorldSettings w sid) as [[ws|]|e]; cbn.
  - destruct (isValid _); cbn; intros H; inversion H; subst; now split.
  - discriminate.
  - discriminate.
Qed.

(** What the handler does to the task store: nothing, or it removes tasks
    and then stores the approval task of the message's room. *)
Lemma handler_tasks (msg : Memory) (st : State) (cb : CallbackId) (w : World) :
  w_tasks (snd (twitterPostAction.handler msg st cb w)) = w_tasks w \/
  exists ts id,
    w_tasks (snd (twitterPostAction.handler msg st cb w)) =
      ts ++ [mkTask (Some id) "Confirm Twitter Post" None
               (task_metadata (twitterPostAction.approvalTask msg))
               "Confirm the tweet to be posted." (Some (m_roomId msg)) None
               ["TWITTER_POST"; "AWAITING_CHOICE"]] /\
    forall roomId,
      length (pendingIn ts roomId) <= length (pendingIn (w_tasks w) roomId).
Proof.
  remember (twitterPostAction.handler msg st cb w) as res eqn:H.
  revert H. unfold twitterPostAction.handler, tryCatch.
  destruct (resolveRoom_frame msg st w) as [v Hv].
  unfold bind at 1. rewrite Hv. intros H.
  destruct (js_truthy v); cbn [negb] in H; [|subst res; left; reflexivity].
  destruct (isGroup (roomType v)); cbn [negb] in H.
  - destruct (roomServerId v) as [sid|]; [|subst res; left; reflexivity].
    destruct (truthy sid); cbn [negb] in H; [|subst res; left; reflexivity].
    run_monad.
    destruct (w_getWorldSettings w sid) as [[ws|]|e]; cbv beta iota in H;
      try (subst res; left; reflexivity).
    destruct (w_useModel w "TEXT_SMALL" _) as [txt|e]; cbv beta iota in H;
      try (subst res; left; reflexivity).
    destruct (negb _ && negb _); [subst res; left; reflexivity|].
    right.
    destruct (List.find _ (w_tasks w)) as [t|]; cbn in H.
    + destruct (w_workers w !! "TWITTER_POST"); cbn in H; subst res; cbn;
        (eexists; eexists; split; [reflexivity|]); intros roomId;
        (destruct (task_id t); [apply pendingIn_filter | reflexivity]).
    + destruct (w_workers w !! "TWITTER_POST"); cbn in H; subst res; cbn;
        (eexists; eexists; split; [reflexivity|]); intros roomId; reflexivity.
  - run_monad.
    destruct (existsb _ (w_memoryManagers w)); subst res; left; reflexivity.
Qed.

(** The invariant of the action path: a turn through the dispatcher keeps
    every room at one pending TWITTER_POST task at most. *)
Lemma dispatchAction_at_most_one (msg : Memory) (st : State) (cb : CallbackId)
  (w : World) :
  atMostOnePending w -> atMostOnePending (snd (dispatchAction msg st cb w)).
Proof.
  intros Hinv. unfold dispatchAction.
  destruct (twitterPostAction.validate msg st w) as [[[|]|e] w1] eqn:Hv.
  - destruct (validate_true_no_pending _ _ _ _ Hv) as [Ht Hnone].
    assert (Hh := handler_tasks msg st cb w1).
    assert (Hgoal : atMostOnePending
                      (snd (twitterPostAction.handler msg st cb w1))).
    { destruct Hh as [Hsame | (ts & id & Heq & Hle)]; intros roomId.
      - rewrite Hsame, Ht. apply Hinv.
      - rewrite Heq, pendingIn_app, length_app.
        specialize (Hle roomId). rewrite Ht in Hle. cbn.
        destruct (String.eqb (m_roomId msg) roomId) eqn:Hr; cbn.
        + apply String.eqb_eq in Hr. subst roomId.
          rewrite Hnone in Hle. cbn in Hle. lia.
        + specialize (Hinv roomId). lia. }
    destruct (twitterPostAction.handler msg st cb w1) as [[r|e] w2];
      exact Hgoal.
  - (* validate returned false *)
    assert (Hv' : w_tasks w1 = w_tasks w).
    { revert Hv. unfold twitterPostAction.validate.
      destruct (resolveRoom_frame msg st w) as [v Hr].
      unfold bind at 1. rewrite Hr.
      destruct (js_truthy v); cbn [negb]; [|discriminate].
      destruct (isGroup (roomType v)); cbn [negb];
        [|intros H; now inversion H].
      destruct (roomServerId v) as [sid|]; [|discriminate].
      destruct (truthy sid); cbn [negb]; [|discriminate].
      unfold bind at 1. rewrite getTasks_pendingIn.
      destruct (pendingIn (w_tasks w) (m_roomId msg)); cbn;
        [|intros H; now inversion H].
      unfold validateTwitterConfig, tryCatch. run_monad.
      destruct (w_getWorldSettings w sid) as [[ws|]|e]; cbn;
        try destruct (isValid _); cbn; intros H; now inversion H. }
    intros roomId. cbn. rewrite Hv'. apply Hinv.
  - assert (Hv' : w_tasks w1 = w_tasks w).
    { revert Hv. unfold twitterPostAction.validate.
      destruct (resolveRoom_frame msg st w) as [v Hr].
      unfold bind at 1. rewrite Hr.
      destruct (js_truthy v); cbn [negb]; [|intros H; now inversion H].
      destruct (isGroup (roomType v)); cbn [negb];
        [|intros H; now inversion H].
      destruct (roomServerId v) as [sid|]; [|intros H; now inversion H].
      destruct (truthy sid); cbn [negb]; [|intros H; now inversion H].
      unfold bind at 1. rewrite getTasks_pendingIn.
      destruct (pendingIn (w_tasks w) (m_roomId msg)); cbn;
        [|intros H; now inversion H].
      unfold validateTwitterConfig, tryCatch. run_monad.
      destruct (w_getWorldSettings w sid) as [[ws|]|e0]; cbn;
        try destruct (isValid _); cbn; intros H; now inversion H. }
    intros roomId. cbn. rewrite Hv'. apply Hinv.
Qed.

(** ** The State Composer *)

Section ComposerProperties.

Import StateComposer.

Variable renderText : string -> string -> string.

Lemma insertByPosition_In (p x : Provider) (l : list Provider) :
  In x (insertByPosition p l) <-> x = p \/ In x l.
Proof.
  induction l as [|q rest IH]; cbn.
  - intuition.
  - destruct (positionOf p <=? positionOf q)%Z; cbn; [intuition|].
    rewrite IH. intuition.
Qed.



Lemma orderProviders_In (x : Provider) (l : list Provider) :
  In x (orderProviders l) <-> In x l.
Proof.
  induction l as [|p rest IH]; cbn; [reflexivity|].
  rewrite insertByPosition_In, IH. intuition.
Qed.















End ComposerProperties.


Example composeState_scenario :
  st_values (StateComposer.composeState joinLines
               [timeProvider; personaProvider] sampleMessage None None) =
  st_values (StateComposer.composeState joinLines
               [personaProvider; timeProvider] sampleMessage None None) /\
  st_values (StateComposer.composeState joinLines
               [timeProvider; personaProvider] sampleMessage None None)
    !! "name" = Some (JStr "Eliza") /\
  StateComposer.composeState joinLines [] sampleMessage None None =
    mkState ∅ ∅ "".
Proof. repeat split; vm_compute; reflexivity. Qed.



Example composeState_with_failure :
  st_values (StateComposer.composeState joinLines
    [timeProvider; failingProvider "broken" (Some 1%Z); lateProvider]
    sampleMessage None None) !! "time" = Some (JStr "late").
Proof. vm_compute. reflexivity. Qed.

(** * Further properties of the code *)

(** ** Type guards *)

(** X1: the five metadata guards partition the metadata: every metadata
    passes exactly one of them, and [isCustomMetadata] is the one it passes
    when its type is none of the four built-in strings. *)
Theorem metadata_guards_partition (metadata : MemoryMetadata) :
  countTrue [isDocumentMetadata metadata; isFragmentMetadata metadata;
             isMessageMetadata metadata; isDescriptionMetadata metadata;
             isCustomMetadata metadata] = 1.
Proof.
  unfold isDocumentMetadata, isFragmentMetadata, isMessageMetadata,
    isDescriptionMetadata, isCustomMetadata, countTrue.
  destruct (String.eqb (md_type metadata) (MemoryType_value DOCUMENT)) eqn:H1;
  destruct (String.eqb (md_type metadata) (MemoryType_value FRAGMENT)) eqn:H2;
  destruct (String.eqb (md_type metadata) (MemoryType_value MESSAGE)) eqn:H3;
  destruct (String.eqb (md_type metadata) (MemoryType_value DESCRIPTION)) eqn:H4;
  try reflexivity;
  repeat match goal with
         | H : String.eqb _ _ = true |- _ => apply String.eqb_eq in H
         end;
  cbn in *; congruence.
Qed.

(** X2: of the three memory guards a memory passes one at most, and a
    memory without metadata passes none; a memory that passes
    [isMessageMemory] has metadata that passes [isMessageMetadata]. *)
Theorem memory_guards_exclusive (memory : Memory) :
  countTrue [isDocumentMemory memory; isFragmentMemory memory;
             isMessageMemory memory] <= 1 /\
  (m_metadata memory = None ->
   isDocumentMemory memory = false /\ isFragmentMemory memory = false /\
   isMessageMemory memory = false) /\
  (isMessageMemory memory = true ->
   exists md, m_metadata memory = Some md /\ isMessageMetadata md = true).
Proof.
  unfold isDocumentMemory, isFragmentMemory, isMessageMemory, metadataTypeIs,
    isMessageMetadata, countTrue.
  destruct (m_metadata memory) as [md|].
  - split; [|split].
    + destruct (String.eqb (md_type md) (MemoryType_value DOCUMENT)) eqn:H1;
      destruct (String.eqb (md_type md) (MemoryType_value FRAGMENT)) eqn:H2;
      destruct (String.eqb (md_type md) (MemoryType_value MESSAGE)) eqn:H3;
      cbn [andb];
      try (destruct (typeof_is_string (c_text (m_content memory))); cbn; lia);
      try (cbn; lia);
      repeat match goal with
             | H : String.eqb _ _ = true |- _ => apply String.eqb_eq in H
             end;
      cbn in *; congruence.
    + discriminate.
    + intros H. apply andb_true_iff in H. destruct H as [H _]. eauto.
  - cbn. split; [lia|]. split; [intros _; repeat split | discriminate].
Qed.

(** X3: [getMemoryText] gives the text whenever there is one, the empty
    string included, and the default (or "" when none is given) only when
    there is none; so on a message memory the default is never used. *)
Theorem getMemoryText_default_only_when_absent (memory : Memory) :
  (forall t d, c_text (m_content memory) = Some t ->
               getMemoryText memory d = t) /\
  (c_text (m_content memory) = None ->
   getMemoryText memory None = "" /\
   forall d, getMemoryText memory (Some d) = d) /\
  (isMessageMemory memory = true ->
   forall d, Some (getMemoryText memory d) = c_text (m_content memory)).
Proof.
  unfold getMemoryText, isMessageMemory. split; [|split].
  - intros t d ->. reflexivity.
  - intros ->. split; reflexivity.
  - intros H d. apply andb_true_iff in H. destruct H as [_ H].
    destruct (c_text (m_content memory)); [reflexivity | discriminate H].
Qed.

Lemma getMemoryText_default_only_when_absent_witness :
  getMemoryText (createMessageMemory 1000%Z 1001%Z sampleParams)
    (Some "fallback") = "hello".
Proof.
  exact (proj1 (getMemoryText_default_only_when_absent
                  (createMessageMemory 1000%Z 1001%Z sampleParams))
           "hello" (Some "fallback") eq_refl).
Defined.

(** ** Service errors *)



Example createServiceError_values :
  se_message (createServiceError (CaughtValue (JNum 1205%Z)) None) = "1205" /\
  se_message (createServiceError (CaughtValue (JNum (-7)%Z)) None) = "-7" /\
  se_message (createServiceError (CaughtValue (JNum 0%Z)) None) = "0" /\
  se_message (createServiceError (CaughtValue JUndefined) (Some "E")) =
    "undefined".
Proof. repeat split. Qed.

(** ** The message manager *)

(** X5: [getRecentMessages] returns exactly the memories of
    [manager.getMemories] that pass [isMessageMemory], in their order; the
    manager is asked with [count] set to the given [limit] and no [limit]
    key when the options have one, and with the options as they are
    otherwise.  Without a base manager there is no message manager. *)
Theorem getRecentMessages_only_messages (agentId : UUID)
  (manager : MemoryManager) (mm : MessageManager) (options : MemoryOptions) :
  getMessageManager agentId (Some manager) = Some mm ->
  getRecentMessages mm options =
    List.filter isMessageMemory
      (mm_getMemories manager (normalizeOptions options)) /\
  (forall m, In m (getRecentMessages mm options) <->
             In m (mm_getMemories manager (normalizeOptions options)) /\
             isMessageMemory m = true) /\
  (forall limit, mo_limit options = Some limit ->
     mo_count (normalizeOptions options) = limit /\
     mo_limit (normalizeOptions options) = None /\
     mo_roomId (normalizeOptions options) = mo_roomId options /\
     mo_unique (normalizeOptions options) = mo_unique options /\
     mo_start (normalizeOptions options) = mo_start options /\
     mo_end (normalizeOptions options) = mo_end options /\
     mo_agentId (normalizeOptions options) = mo_agentId options) /\
  (mo_limit options = None -> normalizeOptions options = options) /\
  getMessageManager agentId None = None.
Proof.
  intros H. cbn in H. inversion H; subst; clear H. cbn [getRecentMessages].
  split; [reflexivity|]. split; [|split; [|split]].
  - intros m. apply filter_In.
  - intros limit Hl. unfold normalizeOptions. rewrite Hl. repeat split.
  - intros Hl. unfold normalizeOptions. now rewrite Hl.
  - reflexivity.
Qed.

Lemma getRecentMessages_only_messages_witness :
  option_map (fun mm => getRecentMessages mm sampleOptions)
    (getMessageManager agentA (Some sampleManager)) =
  Some [createMessageMemory 1000%Z 1001%Z sampleParams].
Proof.
  destruct (getMessageManager agentA (Some sampleManager)) as [mm|] eqn:H;
    [|discriminate H].
  cbn [option_map]. f_equal.
  exact (proj1 (getRecentMessages_only_messages agentA sampleManager mm
                  sampleOptions H)).
Defined.

(** X6: the memory [createMessage] hands to the base manager carries the
    runtime's agent id, has private scope and passes [isMessageMemory]; so
    whenever the base manager returns it among its memories,
    [getRecentMessages] returns it too. *)
Theorem createMessage_is_recent (agentId : UUID) (manager : MemoryManager)
  (mm : MessageManager) (now1 now2 : JsNumber) (params : CreateMessageParams)
  (options : MemoryOptions) :
  getMessageManager agentId (Some manager) = Some mm ->
  wellTypedUUID agentId ->
  is_Some (c_text (cm_content params)) ->
  let message := fst (createMessage mm now1 now2 params) in
  snd (createMessage mm now1 now2 params) = mm_createMemory manager message /\
  isMessageMemory message = true /\
  m_agentId message = Some agentId /\
  m_entityId message = cm_entityId params /\
  m_roomId message = cm_roomId params /\
  m_content message = cm_content params /\
  (exists md, m_metadata message = Some md /\ md_scope md = Some private) /\
  (In message (mm_getMemories manager (normalizeOptions options)) ->
   In message (getRecentMessages mm options)).
Proof.
  intros H Hid [txt Htxt]. cbn in H. inversion H; subst; clear H. cbn.
  assert (Hm : isMessageMemory
                 (createMessageMemory now1 now2
                    (mkMessageParams None (cm_entityId params) (Some agentId)
                       (cm_roomId params) (cm_content params) None)) = true).
  { unfold isMessageMemory, createMessageMemory; cbn. now rewrite Htxt. }
  repeat split; try exact Hm.
  - eexists. split; [reflexivity|]. cbn.
    now rewrite (wellTypedUUID_truthy agentId Hid).
  - intros Hin. apply filter_In. split; [exact Hin | exact Hm].
Qed.

Lemma sampleAgent_wellTyped : wellTypedUUID agentA.
Proof. unfold wellTypedUUID. cbn. lia. Defined.

Lemma createMessage_is_recent_witness :
  option_map
    (fun mm => isMessageMemory
       (fst (createMessage mm 5%Z 6%Z
               (mkCreateMessageParams entityA roomA
                  (mkContent None None (Some "hi") None None None None None
                     None)))))
    (getMessageManager agentA (Some sampleManager)) = Some true.
Proof.
  destruct (getMessageManager agentA (Some sampleManager)) as [mm|] eqn:H;
    [|discriminate H].
  cbn [option_map]. f_equal.
  exact (proj1 (proj2 (createMessage_is_recent agentA sampleManager mm 5%Z 6%Z
    (mkCreateMessageParams entityA roomA
       (mkContent None None (Some "hi") None None None None None None))
    sampleOptions H sampleAgent_wellTyped (ex_intro _ "hi" eq_refl)))).
Defined.

(** ** More on asUUID and the matcher *)

Lemma length_append (a b : string) :
  String.length (a +:+ b) = String.length a + String.length b.
Proof. induction a as [|c a IH]; simpl; [reflexivity | now rewrite IH]. Qed.

Lemma countHyphens_append (a b : string) :
  countHyphens (a +:+ b) = countHyphens a + countHyphens b.
Proof.
  induction a as [|c a IH]; simpl; [reflexivity|]. rewrite IH. lia.
Qed.

Lemma isHexDigit_not_hyphen (c : ascii) :
  isHexDigit c -> Ascii.eqb c "-" = false.
Proof.
  unfold isHexDigit. cbn. intros H.
  repeat (destruct H as [<-|H]; [reflexivity|]). destruct H.
Qed.

Lemma hexGroup_no_hyphen (n : nat) (s : string) :
  hexGroup n s -> countHyphens s = 0.
Proof.
  intros [_ H]. induction s as [|c s IH]; [reflexivity|].
  cbn in *. destruct H as [Hc Hs].
  rewrite (isHexDigit_not_hyphen c Hc). now apply IH.
Qed.

(** X7: [asUUID] is sound for the UUID type: a string it returns is its
    argument, is 36 characters long and has exactly four hyphens, so it is
    of the template type [UUID]. *)
Theorem asUUID_sound (s : string) (u : UUID) :
  asUUID s = Ok u ->
  u = s /\ String.length u = 36 /\ countHyphens u = 4 /\ wellTypedUUID u.
Proof.
  unfold asUUID. intros H.
  destruct (negb (truthy s) || negb (test UUID_REGEX s)) eqn:Hc;
    [discriminate H|].
  inversion H; subst u; clear H.
  apply orb_false_iff in Hc. destruct Hc as [_ Ht].
  apply negb_false_iff in Ht. apply test_UUID_REGEX in Ht.
  destruct Ht as (a & b & c & d & e & -> & Ha & Hb & Hc & Hd & He).
  assert (Hlen : String.length
            (a +:+ "-" +:+ b +:+ "-" +:+ c +:+ "-" +:+ d +:+ "-" +:+ e) = 36).
  { rewrite !length_append.
    destruct Ha as [-> _], Hb as [-> _], Hc as [-> _], Hd as [-> _],
      He as [-> _]. reflexivity. }
  assert (Hh : countHyphens
            (a +:+ "-" +:+ b +:+ "-" +:+ c +:+ "-" +:+ d +:+ "-" +:+ e) = 4).
  { rewrite !countHyphens_append.
    rewrite (hexGroup_no_hyphen _ _ Ha), (hexGroup_no_hyphen _ _ Hb),
      (hexGroup_no_hyphen _ _ Hc), (hexGroup_no_hyphen _ _ Hd),
      (hexGroup_no_hyphen _ _ He). reflexivity. }
  split; [reflexivity|]. split; [exact Hlen|]. split; [exact Hh|].
  unfold wellTypedUUID. rewrite Hh. lia.
Qed.

Lemma asUUID_sound_witness :
  String.length "123e4567-e89b-12d3-a456-426614174000" = 36.
Proof.
  exact (proj1 (proj2 (asUUID_sound "123e4567-e89b-12d3-a456-426614174000"
                         "123e4567-e89b-12d3-a456-426614174000" eq_refl))).
Defined.

Lemma canonicalize_idempotent (c : ascii) :
  canonicalize (canonicalize c) = canonicalize c.
Proof. destruct c as [[] [] [] [] [] [] [] []]; reflexivity. Qed.

Lemma charEq_canonicalize (x c : ascii) :
  charEq true x (canonicalize c) = charEq true x c.
Proof. unfold charEq. now rewrite canonicalize_idempotent. Qed.

Lemma classMatch_canonicalize (ranges : list (ascii * ascii)) (c : ascii) :
  classMatch true ranges (canonicalize c) = classMatch true ranges c.
Proof.
  unfold classMatch. induction ranges as [|r rest IH]; [reflexivity|].
  cbn [existsb]. rewrite IH. f_equal.
  induction (rangeChars r) as [|x xs IHx]; [reflexivity|].
  cbn [existsb]. now rewrite IHx, charEq_canonicalize.
Qed.

Lemma takeClass_canonicalize (ranges : list (ascii * ascii)) (n : nat) :
  forall s,
    takeClass true ranges n (mapString canonicalize s) =
    option_map (mapString canonicalize) (takeClass true ranges n s).
Proof.
  induction n as [|n IH]; intros s; [reflexivity|].
  destruct s as [|c s]; [reflexivity|]. cbn [mapString takeClass].
  rewrite classMatch_canonicalize.
  destruct (classMatch true ranges c); [apply IH | reflexivity].
Qed.

Lemma matchItems_canonicalize (items : list RegexItem) :
  forall s,
    matchItems true items (mapString canonicalize s) = matchItems true items s.
Proof.
  induction items as [|item rest IH]; intros s.
  - destruct s; reflexivity.
  - destruct item as [c|ranges n].
    + destruct s as [|c' s]; [reflexivity|]. cbn [mapString matchItems].
      rewrite charEq_canonicalize.
      destruct (charEq true c c'); [apply IH | reflexivity].
    + cbn [matchItems]. rewrite takeClass_canonicalize.
      destruct (takeClass true ranges n s) as [s'|]; cbn [option_map];
        [apply IH | reflexivity].
Qed.

(** X8: a pattern with the [i] flag does not see letter case: it accepts a
    string exactly when it accepts the string with its letters upper-cased;
    so [asUUID] accepts a UUID in any mix of cases. *)
Theorem ignoreCase_test (re : Regex) (s : string) :
  re_ignoreCase re = true ->
  test re (mapString canonicalize s) = test re s /\
  (asUUID (mapString canonicalize s) = Ok (mapString canonicalize s) <->
   asUUID s = Ok s).
Proof.
  intros Hi. split.
  - unfold test. rewrite Hi. apply matchItems_canonicalize.
  - unfold asUUID, test. cbn [UUID_REGEX re_ignoreCase re_items].
    rewrite matchItems_canonicalize.
    assert (Ht : truthy (mapString canonicalize s) = truthy s)
      by (destruct s; reflexivity).
    rewrite Ht.
    destruct (negb (truthy s) || negb (matchItems true _ s));
      split; intros H; try discriminate H; reflexivity.
Qed.

Lemma ignoreCase_test_witness :
  test UUID_REGEX (mapString canonicalize "123e4567-e89b-12d3-a456-426614174abc")
  = test UUID_REGEX "123e4567-e89b-12d3-a456-426614174abc".
Proof.
  exact (proj1 (ignoreCase_test UUID_REGEX
                  "123e4567-e89b-12d3-a456-426614174abc" eq_refl)).
Defined.

(** ** The tweet clean-up *)








(** ** The Twitter configuration *)

Lemma checkRequiredFields_valid (ws : gmap string Setting) (fields : list string) :
  isValid (checkRequiredFields ws fields) = true <->
  forall f, In f fields -> fieldConfigured ws f.
Proof.
  induction fields as [|f rest IH]; cbn [checkRequiredFields].
  - split; [intros _ f [] | reflexivity].
  - destruct (ws !! f) as [st|] eqn:Hf.
    + destruct (set_value st) eqn:Hv.
      * rewrite IH. split.
        -- intros H g [<-|Hg]; [|now apply H].
           exists st. split; [exact Hf | congruence].
        -- intros H g Hg. apply H. now right.
      * rewrite IH. split.
        -- intros H g [<-|Hg]; [|now apply H].
           exists st. split; [exact Hf | congruence].
        -- intros H g Hg. apply H. now right.
      * cbn. split; [discriminate|].
        intros H. destruct (H f (or_introl eq_refl)) as (st' & Hst & Hn).
        rewrite Hf in Hst. inversion Hst; subst. congruence.
    + cbn. split; [discriminate|].
      intros H. destruct (H f (or_introl eq_refl)) as (st' & Hst & _).
      rewrite Hf in Hst. discriminate Hst.
Qed.

Lemma checkRequiredFields_error (ws : gmap string Setting) (fields : list string) :
  cv_error (checkRequiredFields ws fields) = None <->
  isValid (checkRequiredFields ws fields) = true.
Proof.
  induction fields as [|f rest IH]; cbn [checkRequiredFields].
  - split; reflexivity.
  - destruct (ws !! f) as [st|]; [destruct (set_value st)|];
      try exact IH; cbn; split; discriminate.
Qed.

(** X10: [validateTwitterConfig] never throws.  It reports a valid
    configuration exactly when the settings of the server are found and each
    of TWITTER_USERNAME, TWITTER_EMAIL and TWITTER_PASSWORD has an entry with
    a non-null value; it reports an error message exactly when it reports
    invalid; it leaves the runtime as it is, except for one logged error
    when the settings lookup itself throws. *)
Theorem validateTwitterConfig_total (serverId : string) (w : World) :
  exists v w',
    validateTwitterConfig serverId w = (Ok v, w') /\
    (isValid v = true <->
     exists ws, w_getWorldSettings w serverId = Ok (Some ws) /\
                forall f, In f REQUIRED_TWITTER_FIELDS -> fieldConfigured ws f) /\
    (cv_error v = None <-> isValid v = true) /\
    ((exists e, w_getWorldSettings w serverId = Throw e) ->
     w' = set_trace (fun t => t ++
            [ELog "error" "Error validating Twitter config:"]) w) /\
    ((forall e, w_getWorldSettings w serverId <> Throw e) -> w' = w).
Proof.
  unfold validateTwitterConfig, tryCatch. run_monad.
  destruct (w_getWorldSettings w serverId) as [[ws|]|e] eqn:Hs; cbv beta iota.
  - eexists; eexists. split; [reflexivity|]. split; [|split; [|split]].
    + rewrite checkRequiredFields_valid. split.
      * intros H. exists ws. split; [reflexivity | exact H].
      * intros (ws' & Heq & H). inversion Heq; subst. exact H.
    + apply checkRequiredFields_error.
    + intros [e He]. discriminate He.
    + reflexivity.
  - eexists; eexists. split; [reflexivity|]. split; [|split; [|split]]; cbn.
    + split; [discriminate|]. intros (ws & Heq & _). discriminate Heq.
    + split; discriminate.
    + intros [e He]. discriminate He.
    + reflexivity.
  - eexists; eexists. split; [reflexivity|]. split; [|split; [|split]]; cbn.
    + split; [discriminate|]. intros (ws & Heq & _). discriminate Heq.
    + split; discriminate.
    + reflexivity.
    + intros H. now contradiction (H e).
Qed.

(** X11: the action's [validate] returns true exactly when the room resolves
    to a group room with a non-empty server id, the message's room holds no
    task tagged TWITTER_POST, and the Twitter configuration of the server is
    valid; it never changes the task store or the worker registry. *)
Theorem validate_true_iff (msg : Memory) (st : State) (w : World) :
  (fst (twitterPostAction.validate msg st w) = Ok true <->
   exists v sid,
     resolveRoom msg st w = (Ok v, w) /\ js_truthy v = true /\
     isGroup (roomType v) = true /\
     roomServerId v = Some sid /\ truthy sid = true /\
     pendingIn (w_tasks w) (m_roomId msg) = [] /\
     exists cv w', validateTwitterConfig sid w = (Ok cv, w') /\
                   isValid cv = true) /\
  w_tasks (snd (twitterPostAction.validate msg st w)) = w_tasks w /\
  w_workers (snd (twitterPostAction.validate msg st w)) = w_workers w.
Proof.
  remember (twitterPostAction.validate msg st w) as res eqn:H.
  revert H. unfold twitterPostAction.validate.
  destruct (resolveRoom_frame msg st w) as [v Hv].
  unfold bind at 1. rewrite Hv. intros H.
  assert (Huniq : forall v', (Ok v, w) = (Ok v', w) -> v' = v)
    by (intros v' Heq; now inversion Heq).
  destruct (js_truthy v) eqn:Ht; cbn [negb] in H.
  2:{ subst res. cbn. split; [|split; reflexivity].
      split; [discriminate|].
      intros (v' & sid & Heq & Ht' & _). apply Huniq in Heq. subst. congruence. }
  destruct (isGroup (roomType v)) eqn:Hg; cbn [negb] in H.
  2:{ subst res. cbn. split; [|split; reflexivity].
      split; [discriminate|].
      intros (v' & sid & Heq & _ & Hg' & _). apply Huniq in Heq. subst.
      congruence. }
  destruct (roomServerId v) as [sid|] eqn:Hs.
  2:{ subst res. cbn. split; [|split; reflexivity].
      split; [discriminate|].
      intros (v' & sid & Heq & _ & _ & Hs' & _). apply Huniq in Heq. subst.
      congruence. }
  destruct (truthy sid) eqn:Hsid; cbn [negb] in H.
  2:{ subst res. cbn. split; [|split; reflexivity].
      split; [discriminate|].
      intros (v' & sid' & Heq & _ & _ & Hs' & Hsid' & _).
      apply Huniq in Heq. subst. congruence. }
  unfold bind at 1 in H. rewrite getTasks_pendingIn in H.
  destruct (pendingIn (w_tasks w) (m_roomId msg)) as [|t ts] eqn:Hp; cbn in H.
  2:{ subst res. cbn. split; [|split; reflexivity].
      split; [discriminate|].
      intros (v' & sid' & _ & _ & _ & _ & _ & Hp' & _). discriminate Hp'. }
  destruct (validateTwitterConfig_total sid w) as (cv & w' & Hcv & _ & _ & Hw1 & Hw2).
  unfold bind in H. rewrite Hcv in H.
  assert (Hframe : w_tasks w' = w_tasks w /\ w_workers w' = w_workers w).
  { destruct (w_getWorldSettings w sid) as [o|e] eqn:Hws.
    - rewrite Hw2; [split; reflexivity|]. intros e. discriminate.
    - rewrite Hw1; [split; reflexivity|]. eauto. }
  destruct (isValid cv) eqn:Hval; cbn [negb] in H; subst res; cbn.
  - split; [|exact Hframe]. split; [|reflexivity].
    intros _. exists v, sid. repeat split; try assumption. eauto.
  - split; [|exact Hframe]. split; [discriminate|].
    intros (v' & sid' & Heq & _ & _ & Hs' & _ & _ & cv' & w'' & Hcv' & Hval').
    apply Huniq in Heq. subst. rewrite Hs in Hs'. inversion Hs'; subst.
    rewrite Hcv in Hcv'. inversion Hcv'; subst. congruence.
Qed.

(** ** The post path and its settings *)

(** X12: the post path reads the [value] of four settings entries,
    TWITTER_2FA_SECRET included, before anything else: when the worker's
    settings lack any of them, [execute] with "post" throws a [TypeError]
    and has done nothing (no client, no tweet, no reply).  The required
    fields checked by [validateTwitterConfig] do not include
    TWITTER_2FA_SECRET, so settings it accepts can still fail here. *)
Theorem execute_post_missing_setting (self : Worker) (w : World) (key : string) :
  In key ["TWITTER_USERNAME"; "TWITTER_EMAIL"; "TWITTER_PASSWORD";
          "TWITTER_2FA_SECRET"] ->
  wk_worldSettings self !! key = None ->
  worker.execute self "post" w =
  (Throw (TypeError "Cannot read properties of undefined (reading 'value')"), w).
Proof.
  intros Hk Hnone. rewrite execute_post.
  unfold obtainClient, readSettingValue, bind, ret, throw.
  destruct Hk as [<-|[<-|[<-|[<-|[]]]]].
  - now rewrite Hnone.
  - destruct (wk_worldSettings self !! "TWITTER_USERNAME"); [|reflexivity].
    now rewrite Hnone.
  - destruct (wk_worldSettings self !! "TWITTER_USERNAME"); [|reflexivity].
    destruct (wk_worldSettings self !! "TWITTER_EMAIL"); [|reflexivity].
    now rewrite Hnone.
  - destruct (wk_worldSettings self !! "TWITTER_USERNAME"); [|reflexivity].
    destruct (wk_worldSettings self !! "TWITTER_EMAIL"); [|reflexivity].
    destruct (wk_worldSettings self !! "TWITTER_PASSWORD"); [|reflexivity].
    now rewrite Hnone.
Qed.

Lemma execute_post_missing_setting_witness :
  isValid (checkRequiredFields settingsWithout2FA REQUIRED_TWITTER_FIELDS) = true /\
  worker.execute
    (mkWorker "TWITTER_POST" 7 emptyContent settingsWithout2FA "server-1" "hi")
    "post" (sampleWorld groupRoom [] (Some sampleService) "OWNER") =
  (Throw (TypeError "Cannot read properties of undefined (reading 'value')"),
   sampleWorld groupRoom [] (Some sampleService) "OWNER").
Proof.
  split; [reflexivity|].
  exact (execute_post_missing_setting
           (mkWorker "TWITTER_POST" 7 emptyContent settingsWithout2FA
              "server-1" "hi")
           (sampleWorld groupRoom [] (Some sampleService) "OWNER")
           "TWITTER_2FA_SECRET"
           (or_intror (or_intror (or_intror (or_introl eq_refl))))
           eq_refl).
Defined.

(** X13: [ensureTwitterClient] returns a client exactly when the twitter
    service is registered and either already has a client for the server and
    agent or creates one; it asks the service to create a client only when
    the service has none, and never when the service is missing. *)
Theorem ensureTwitterClient_cases (serverId : string) (vals : TwitterVals)
  (w : World) :
  ((exists c w', ensureTwitterClient serverId vals w = (Ok c, w')) <->
   exists mgr,
     w_twitter w = Some mgr /\
     (is_Some (ts_getClient mgr serverId (w_agentId w)) \/
      exists c, ts_createClient mgr serverId vals = Ok (Some c))) /\
  (forall sid, In (ECreateClient sid)
                 (effectsOf (ensureTwitterClient serverId vals) w) <->
               sid = serverId /\
               exists mgr, w_twitter w = Some mgr /\
                           ts_getClient mgr serverId (w_agentId w) = None) /\
  (forall mgr c, w_twitter w = Some mgr ->
                 ts_getClient mgr serverId (w_agentId w) = Some c ->
                 ensureTwitterClient serverId vals w = (Ok c, w)) /\
  (w_twitter w = None ->
   ensureTwitterClient serverId vals w =
   (Throw (Error "Twitter client manager not found"), w)).
Proof.
  unfold effectsOf, ensureTwitterClient. run_monad.
  destruct (w_twitter w) as [mgr|] eqn:Hm; cbn.
  - destruct (ts_getClient mgr serverId (w_agentId w)) as [c|] eqn:Hg; cbn.
    + rewrite drop_all. split; [|split; [|split]].
      * split; [intros _; exists mgr; split; [reflexivity|left; eauto]
               | intros _; eauto].
      * intros sid. split; [intros []|].
        intros (_ & mgr' & Heq & Hn). inversion Heq; subst. congruence.
      * intros mgr' c' Heq Hc. inversion Heq; subst.
        rewrite Hg in Hc. now inversion Hc.
      * discriminate.
    + assert (Hdrop : forall (o : Outcome TwitterClient),
         drop (length (w_trace w))
           (w_trace (snd (o, set_trace (fun t => t ++ [ECreateClient serverId])
              (set_trace (fun t => t ++
                 [ELog "info" "Creating new Twitter client for server"]) w))))
         = [ELog "info" "Creating new Twitter client for server";
            ECreateClient serverId]).
      { intros o. cbn. rewrite <- app_assoc. apply drop_app_length. }
      split; [|split; [|split]].
      * destruct (ts_createClient mgr serverId vals) as [[c|]|e] eqn:Hc; cbn.
        -- split; [intros _; exists mgr; split; [reflexivity|right; eauto]
                  | intros _; eauto].
        -- split; [intros (c & w' & H); discriminate H|].
           intros (mgr' & Heq & [[c Hx]|[c Hx]]); inversion Heq; subst;
             congruence.
        -- split; [intros (c & w' & H); discriminate H|].
           intros (mgr' & Heq & [[c Hx]|[c Hx]]); inversion Heq; subst;
             congruence.
      * intros sid.
        assert (Heff : forall l, l = [ELog "info" "Creating new Twitter client for server";
                                 ECreateClient serverId] ->
                  (In (ECreateClient sid) l <->
                   sid = serverId /\
                   exists mgr0, Some mgr = Some mgr0 /\
                     ts_getClient mgr0 serverId (w_agentId w) = None)).
        { intros l ->. split.
          - intros [H|[H|[]]]; [discriminate H|]. inversion H; subst.
            split; [reflexivity|]. eauto.
          - intros [-> _]. right. now left. }
        apply Heff.
        destruct (ts_createClient mgr serverId vals) as [[c|]|e]; apply Hdrop.
      * intros mgr' c' Heq Hc. inversion Heq; subst. congruence.
      * discriminate.
  - rewrite drop_all. split; [|split; [|split]].
    + split; [intros (c & w' & H); discriminate H|].
      intros (mgr & Heq & _). discriminate Heq.
    + intros sid. split; [intros []|].
      intros (_ & mgr & Heq & _). discriminate Heq.
    + intros mgr c Heq. discriminate Heq.
    + reflexivity.
Qed.

(** ** What the handler leaves behind *)





Lemma sampleProposal :
  exists c w',
    twitterPostAction.handler sampleMessage emptyState 7
      (sampleWorld groupRoom [] None "OWNER") = (Ok (HContent c), w').
Proof. eexists; eexists. vm_compute. reflexivity. Defined.






(** ** The collection logger *)

Section LoggerProperties.

Variable rateToFixed : JsNumber -> JsNumber -> string.

Lemma step_counters (lg : LoggerState) (c : Logger.LoggerCall) (n : Z) :
  countersOk (collectionStats lg) ->
  totalBatches (collectionStats lg) = n ->
  countersOk (collectionStats (fst (Logger.step rateToFixed lg c))) /\
  totalBatches (collectionStats (fst (Logger.step rateToFixed lg c))) =
    updatesSinceReset n [c].
Proof.
  intros (Hb & Hr & Hh) Hn. destruct c as [now progress|now|now]; cbn.
  - unfold Logger.updateCollectionProgress.
    destruct (1000 <? now - lastUpdate lg)%Z; cbn;
      (split; [|lia]); unfold countersOk; cbn;
      destruct (newInBatch progress) as [k|]; try destruct (0 <? k)%Z;
      destruct (isReset progress) as [[]|]; lia.
  - split; [|exact Hn]. unfold countersOk; cbn. lia.
  - split; [|reflexivity]. unfold countersOk; cbn. lia.
Qed.

Lemma run_counters (calls : list Logger.LoggerCall) :
  forall lg n,
    countersOk (collectionStats lg) ->
    totalBatches (collectionStats lg) = n ->
    countersOk (collectionStats (fst (Logger.run rateToFixed lg calls))) /\
    totalBatches (collectionStats (fst (Logger.run rateToFixed lg calls))) =
      updatesSinceReset n calls.
Proof.
  induction calls as [|c rest IH]; intros lg n Hok Hn; [now split|].
  destruct (step_counters lg c n Hok Hn) as [Hok1 Hn1].
  cbn [Logger.run].
  destruct (Logger.step rateToFixed lg c) as [lg1 shown] eqn:Hs.
  cbn [fst] in Hok1, Hn1.
  specialize (IH lg1 _ Hok1 Hn1).
  destruct (Logger.run rateToFixed lg1 rest) as [lg2 shownRest].
  cbn [fst] in *. destruct IH as [IH1 IH2]. split; [exact IH1|].
  rewrite IH2. destruct c; reflexivity.
Qed.

(** X17: whatever calls are made on the logger, the batches with new tweets
    and the position resets never exceed the total number of batches (so the
    batch efficiency it displays is at most 100%), no counter is negative,
    and the total is the number of updates since the last reset. *)
Theorem logger_counters_consistent (now : JsNumber)
  (calls : list Logger.LoggerCall) :
  countersOk
    (collectionStats (fst (Logger.run rateToFixed (Logger.initial now) calls))) /\
  totalBatches
    (collectionStats (fst (Logger.run rateToFixed (Logger.initial now) calls))) =
  updatesSinceReset 0%Z calls.
Proof.
  apply run_counters; [|reflexivity]. unfold countersOk; cbn. lia.
Qed.

Lemma trackDate_tracks (pick : Z -> Z -> Z) (le : Z -> Z -> Prop)
  (current given : option JsNumber) (seen : list Z) :
  (forall a b, le (pick a b) a /\ le (pick a b) b /\
               (pick a b = a \/ pick a b = b)) ->
  (forall a, le a a) ->
  (forall a b c, le a b -> le b c -> le a c) ->
  tracks le current seen ->
  tracks le (Logger.trackDate pick current given)
    (if Logger.truthyNumber given
     then match given with Some d => d :: seen | None => seen end
     else seen).
Proof.
  intros Hpick Hrefl Htrans (Hnz & Hle & Hin). unfold Logger.trackDate.
  destruct given as [g|]; cbn [Logger.truthyNumber];
    [|now repeat split].
  destruct (Z.eqb g 0) eqn:Hg; cbn [negb]; [now repeat split|].
  apply Z.eqb_neq in Hg.
  destruct current as [c|]; cbn [Logger.truthyNumber].
  - destruct (Z.eqb c 0) eqn:Hc; cbn [negb].
    + apply Z.eqb_eq in Hc. subst. now contradiction Hnz.
    + destruct (Hpick c g) as (H1 & H2 & H3). repeat split.
      * intros Heq. inversion Heq as [Hp]. destruct H3 as [H3|H3];
          rewrite H3 in Hp; [apply Z.eqb_neq in Hc|]; congruence.
      * intros d [<-|Hd]; [eauto|].
        destruct (Hle d Hd) as (m & Hm & Hmd). inversion Hm; subst. eauto.
      * intros m Hm. inversion Hm; subst.
        destruct H3 as [-> | ->]; [right; now apply Hin | now left].
  - repeat split.
    + intros Heq. inversion Heq. congruence.
    + intros d [<-|Hd]; [eauto|].
      destruct (Hle d Hd) as (m & Hm & _). discriminate Hm.
    + intros m Hm. inversion Hm. now left.
Qed.

Lemma run_tracks (calls : list Logger.LoggerCall) :
  forall lg seenOld seenNew,
    tracks Z.le (oldestTweet (collectionStats lg)) seenOld ->
    tracks Z.ge (newestTweet (collectionStats lg)) seenNew ->
    tracks Z.le
      (oldestTweet (collectionStats (fst (Logger.run rateToFixed lg calls))))
      (datesSinceReset oldestTweetDate seenOld calls) /\
    tracks Z.ge
      (newestTweet (collectionStats (fst (Logger.run rateToFixed lg calls))))
      (datesSinceReset newestTweetDate seenNew calls).
Proof.
  induction calls as [|c rest IH]; intros lg seenOld seenNew Ho Hn;
    [now split|].
  cbn [Logger.run].
  destruct (Logger.step rateToFixed lg c) as [lg1 shown] eqn:Hs.
  assert (H1 :
    tracks Z.le (oldestTweet (collectionStats lg1))
      (match c with
       | Logger.CallUpdate _ progress =>
           if Logger.truthyNumber (oldestTweetDate progress)
           then match oldestTweetDate progress with
                | Some d => d :: seenOld | None => seenOld end
           else seenOld
       | Logger.CallRateLimit _ => seenOld
       | Logger.CallReset _ => []
       end) /\
    tracks Z.ge (newestTweet (collectionStats lg1))
      (match c with
       | Logger.CallUpdate _ progress =>
           if Logger.truthyNumber (newestTweetDate progress)
           then match newestTweetDate progress with
                | Some d => d :: seenNew | None => seenNew end
           else seenNew
       | Logger.CallRateLimit _ => seenNew
       | Logger.CallReset _ => []
       end)).
  { destruct c as [now progress|now|now]; cbn in Hs.
    - unfold Logger.updateCollectionProgress in Hs.
      assert (Hold := trackDate_tracks Z.min Z.le _ (oldestTweetDate progress)
                        seenOld ltac:(intros; lia) ltac:(intros; lia)
                        ltac:(intros; lia) Ho).
      assert (Hnew := trackDate_tracks Z.max Z.ge _ (newestTweetDate progress)
                        seenNew ltac:(intros; lia) ltac:(intros; lia)
                        ltac:(intros; lia) Hn).
      destruct (1000 <? now - lastUpdate lg)%Z; inversion Hs; subst; cbn;
        now split.
    - inversion Hs; subst; cbn. now split.
    - inversion Hs; subst; cbn.
      split; (split; [discriminate|]; split; [intros d []|discriminate]). }
  destruct H1 as [H1o H1n]. specialize (IH lg1 _ _ H1o H1n).
  destruct (Logger.run rateToFixed lg1 rest) as [lg2 shownRest].
  cbn [fst] in *. destruct c; exact IH.
Qed.

(** X18: the date range of the statistics follows the updates since the
    last reset: [oldestTweet] is one of the oldest dates they reported and
    not larger than any of them, [newestTweet] one of the newest dates and
    not smaller than any; a reported date of 0 (falsy) is ignored, and
    neither bound is ever 0. *)
Theorem logger_date_range (now : JsNumber) (calls : list Logger.LoggerCall) :
  tracks Z.le
    (oldestTweet
       (collectionStats (fst (Logger.run rateToFixed (Logger.initial now) calls))))
    (datesSinceReset oldestTweetDate [] calls) /\
  tracks Z.ge
    (newestTweet
       (collectionStats (fst (Logger.run rateToFixed (Logger.initial now) calls))))
    (datesSinceReset newestTweetDate [] calls).
Proof.
  apply run_tracks; cbn;
    (split; [discriminate|]; split; [intros d []|discriminate]).
Qed.



End LoggerProperties.



Example logger_sample_run :
  let st := collectionStats
              (fst (Logger.run sampleRate (Logger.initial 0%Z) sampleCalls)) in
  oldestTweet st = Some 700%Z /\ newestTweet st = Some 990%Z /\
  totalBatches st = 3%Z /\ batchesWithNewTweets st = 2%Z /\
  rateLimitHits st = 1%Z /\
  List.map fst (snd (Logger.run sampleRate (Logger.initial 0%Z) sampleCalls)) =
    [1600%Z; 2700%Z].
Proof. repeat split. Qed.

(** ** The socket manager *)

Section SocketManagerProperties.

Import WebSocketsManager.

Lemma onlySends_refl (m : Manager) : onlySends m m.
Proof.
  repeat split. exists []. split; [now rewrite app_nil_r | intros s []].
Qed.

Lemma onlySends_trans (m1 m2 m3 : Manager) :
  onlySends m1 m2 -> onlySends m2 m3 -> onlySends m1 m3.
Proof.
  intros (S1 & P1 & R1 & N1 & H1 & l1 & O1 & L1)
         (S2 & P2 & R2 & N2 & H2 & l2 & O2 & L2).
  repeat split; try congruence.
  exists (l1 ++ l2). split.
  - rewrite O2, O1. now rewrite app_assoc.
  - intros s Hs. unfold sentSockets in Hs. rewrite flat_map_app in Hs.
    apply in_app_or in Hs. destruct Hs as [Hs|Hs].
    + now apply L1.
    + destruct (L2 s Hs) as (so & Hso & Hopen). exists so.
      rewrite <- H1. now split.
Qed.

Lemma print_onlySends (o : Output) (m : Manager) :
  (forall s p, o = Sent s p -> socketOpen m s) -> onlySends m (print o m).
Proof.
  intros H. repeat split. exists [o]. split; [reflexivity|].
  intros s Hs. destruct o; cbn in Hs; try contradiction.
  destruct Hs as [<-|[]]. now apply (H _ message).
Qed.

Lemma deliver_onlySends (socket : nat) (agentId : string) (message : Payload)
  (m : Manager) : onlySends m (deliver socket agentId message m).
Proof.
  unfold deliver. destruct (heap m !! socket) as [so|] eqn:Hso;
    [|apply onlySends_refl].
  destruct (isOpen (so_readyState so)) eqn:Ho.
  - apply print_onlySends. intros s p Heq. inversion Heq; subst.
    exists so. split; [exact Hso|]. now destruct (so_readyState so).
  - apply print_onlySends. intros s p Heq. discriminate Heq.
Qed.

Lemma sendMessage_onlySends (agentId : string) (message : Payload)
  (m : Manager) : onlySends m (sendMessage agentId message m).
Proof.
  unfold sendMessage. destruct (mapGet agentId (sockets m)) as [socket|].
  - destruct (readyPromises m !! agentId) as [promise|];
      [|apply deliver_onlySends].
    destruct (existsb (Nat.eqb promise) (resolved m));
      [apply deliver_onlySends|].
    repeat split. exists []. split; [now rewrite app_nil_r | intros s []].
  - apply print_onlySends. intros s p Heq. discriminate Heq.
Qed.

Lemma resume_onlySends (promise : nat) (calls : list Suspended) :
  forall m, onlySends m (resume promise calls m).
Proof.
  induction calls as [|c rest IH]; intros m; [apply onlySends_refl|].
  cbn [resume]. destruct (Nat.eqb (su_promise c) promise); [|apply IH].
  eapply onlySends_trans; [apply deliver_onlySends | apply IH].
Qed.

Lemma resolvePromise_onlySends (promise : nat) (m : Manager) :
  onlySends m (resolvePromise promise m).
Proof.
  unfold resolvePromise.
  destruct (existsb (Nat.eqb promise) (resolved m)); [apply onlySends_refl|].
  eapply onlySends_trans; [|apply resume_onlySends].
  repeat split. exists []. split; [cbn; now rewrite app_nil_r | intros s []].
Qed.

Lemma onlySends_keepsMaps (m m' : Manager) : onlySends m m' -> keepsMaps m m'.
Proof.
  intros (S1 & P1 & R1 & N1 & H1 & _). repeat split; try assumption.
  intros socket. now rewrite H1.
Qed.

Lemma keepsMaps_refl (m : Manager) : keepsMaps m m.
Proof. repeat split. Qed.

Lemma keepsMaps_trans (m1 m2 m3 : Manager) :
  keepsMaps m1 m2 -> keepsMaps m2 m3 -> keepsMaps m1 m3.
Proof.
  intros (S1 & P1 & R1 & N1 & H1) (S2 & P2 & R2 & N2 & H2).
  repeat split; try congruence; intros socket; now rewrite H2, H1.
Qed.

Lemma setReadyState_keepsMaps (socket : nat) (s : ReadyState) (m : Manager) :
  keepsMaps m (setReadyState socket s m).
Proof.
  repeat split. intros sid. unfold setReadyState; cbn.
  destruct (heap m !! socket) as [so|] eqn:Hso; [|reflexivity].
  destruct (decide (socket = sid)) as [<-|Hne].
  - now rewrite lookup_insert_eq, Hso.
  - now rewrite lookup_insert_ne.
Qed.

Lemma closeSocket_keepsMaps (socket : nat) (m : Manager) :
  keepsMaps m (closeSocket socket m).
Proof.
  unfold closeSocket. destruct (heap m !! socket) as [so|];
    [|apply keepsMaps_refl].
  destruct (so_readyState so);
    try apply keepsMaps_refl; apply setReadyState_keepsMaps.
Qed.

Lemma disconnectOne_keepsMaps (entry : string * nat) (m : Manager) :
  keepsMaps m (disconnectOne entry m).
Proof.
  destruct entry as [agentId socket]. unfold disconnectOne.
  cbn [print heap].
  destruct (heap m !! socket) as [so|] eqn:Hso.
  - destruct (isOpen (so_readyState so)).
    + eapply keepsMaps_trans; [|apply closeSocket_keepsMaps].
      repeat split. intros sid. cbn.
      destruct (decide (socket = sid)) as [<-|Hne].
      * now rewrite lookup_insert_eq, Hso.
      * now rewrite lookup_insert_ne.
    + repeat split.
  - repeat split.
Qed.

Lemma disconnectAll_keepsMaps (m : Manager) : keepsMaps m (disconnectAll m).
Proof.
  unfold disconnectAll. generalize (sockets m) at 1. intros entries.
  revert m. induction entries as [|e rest IH]; intros m;
    [apply keepsMaps_refl|].
  cbn [fold_left]. eapply keepsMaps_trans;
    [apply disconnectOne_keepsMaps | apply IH].
Qed.

Lemma keepsMaps_inSync (m m' : Manager) :
  keepsMaps m m' -> inSync m /\ refsFresh m -> inSync m' /\ refsFresh m'.
Proof.
  intros (S1 & P1 & R1 & N1 & H1) [(Hnd & Hp & Hr & Hh) Hf]. split.
  - unfold inSync. rewrite S1, P1, R1. repeat split; try assumption;
      try apply Hp.
    intros agentId socket Hg. destruct (Hh _ _ Hg) as (so & Hso & Ha).
    specialize (H1 socket). rewrite Hso in H1. cbn in H1.
    destruct (heap m' !! socket) as [so'|]; [|discriminate H1].
    exists so'. split; [reflexivity|]. cbn in H1. congruence.
  - intros socket [so' Hso']. rewrite N1. apply Hf.
    specialize (H1 socket). rewrite Hso' in H1.
    destruct (heap m !! socket); [eauto | discriminate H1].
Qed.

Lemma mapGet_None (key : string) (l : list (string * nat)) :
  mapGet key l = None <-> ~ In key (List.map fst l).
Proof.
  induction l as [|[k v] rest IH]; cbn; [tauto|].
  destruct (String.eqb k key) eqn:Hk.
  - apply String.eqb_eq in Hk. subst. split; [discriminate | tauto].
  - apply String.eqb_neq in Hk. rewrite IH. tauto.
Qed.

Lemma mapGet_app (key : string) (l1 l2 : list (string * nat)) :
  mapGet key (l1 ++ l2) =
  match mapGet key l1 with Some v => Some v | None => mapGet key l2 end.
Proof.
  induction l1 as [|[k v] rest IH]; cbn; [reflexivity|].
  destruct (String.eqb k key); [reflexivity | exact IH].
Qed.

Lemma mapGet_delete (key k : string) (l : list (string * nat)) :
  mapGet k (mapDelete key l) = if String.eqb key k then None else mapGet k l.
Proof.
  unfold mapDelete. induction l as [|[k0 v] rest IH]; cbn.
  - now destruct (String.eqb key k).
  - destruct (String.eqb k0 key) eqn:H0; cbn.
    + apply String.eqb_eq in H0. subst k0. rewrite IH.
      destruct (String.eqb key k); reflexivity.
    + rewrite IH. destruct (String.eqb k0 k) eqn:H1; [|reflexivity].
      apply String.eqb_eq in H1. subst k0.
      rewrite String.eqb_sym, H0. reflexivity.
Qed.

Lemma forget_inSync (agentId : string) (m : Manager) :
  inSync m /\ refsFresh m -> inSync (forget agentId m) /\ refsFresh (forget agentId m).
Proof.
  intros [(Hnd & Hp & Hr & Hh) Hf]. split; [|exact Hf].
  unfold inSync, forget; cbn. repeat split.
  - unfold mapDelete. clear -Hnd.
    induction (sockets m) as [|[k v] rest IH]; cbn; [constructor|].
    cbn in Hnd. apply NoDup_cons in Hnd. destruct Hnd as [Hnin Hnd'].
    destruct (String.eqb k agentId); cbn; [now apply IH|].
    apply NoDup_cons. split; [|now apply IH].
    rewrite list_elem_of_In in *.
    intros Hin. apply Hnin. apply in_map_iff in Hin.
    destruct Hin as [[k' v'] [Hk Hin]]. apply filter_In in Hin.
    apply in_map_iff. exists (k', v'). tauto.
  - rewrite mapGet_delete. destruct (String.eqb agentId agentId0) eqn:He.
    + apply String.eqb_eq in He. subst. rewrite lookup_delete_eq.
      intros [x Hx]. discriminate Hx.
    + apply String.eqb_neq in He. rewrite lookup_delete_ne by exact He.
      apply Hp.
  - rewrite mapGet_delete. destruct (String.eqb agentId agentId0) eqn:He.
    + apply String.eqb_eq in He. subst. rewrite lookup_delete_eq.
      intros [x Hx]. discriminate Hx.
    + apply String.eqb_neq in He. rewrite lookup_delete_ne by exact He.
      apply Hp.
  - intros a. destruct (decide (agentId = a)) as [<-|Hne].
    + now rewrite !lookup_delete_eq.
    + rewrite !lookup_delete_ne by exact Hne. apply Hr.
  - intros a socket. rewrite mapGet_delete.
    destruct (String.eqb agentId a); [discriminate | apply Hh].
Qed.

Lemma connect_inSync (agentId roomId : string) (m : Manager) :
  inSync m /\ refsFresh m ->
  inSync (connect agentId roomId m) /\ refsFresh (connect agentId roomId m).
Proof.
  intros Hinv. unfold connect.
  destruct (mapGet agentId (sockets m)) as [old|] eqn:Hg.
  - apply (keepsMaps_inSync m); [|exact Hinv]. repeat split.
  - destruct Hinv as [(Hnd & Hp & Hr & Hh) Hf]. split.
    + unfold inSync; cbn. repeat split.
      * rewrite map_app. cbn. apply NoDup_app. split; [exact Hnd|].
        split; [|apply NoDup_singleton].
        intros x Hx Hin. apply list_elem_of_In in Hx, Hin.
        destruct Hin as [<-|[]]. apply mapGet_None in Hg. contradiction.
      * rewrite mapGet_app. intros Hs.
        destruct (decide (agentId = agentId0)) as [<-|Hne].
        -- rewrite lookup_insert_eq. eauto.
        -- rewrite lookup_insert_ne by exact Hne. apply Hp.
           destruct (mapGet agentId0 (sockets m)); [eauto|].
           cbn in Hs. apply String.eqb_neq in Hne. rewrite Hne in Hs.
           destruct Hs as [x Hx]. discriminate Hx.
      * rewrite mapGet_app. intros Hs.
        destruct (decide (agentId = agentId0)) as [<-|Hne].
        -- rewrite Hg. cbn. rewrite String.eqb_refl. eauto.
        -- rewrite lookup_insert_ne in Hs by exact Hne. apply Hp in Hs.
           destruct Hs as [x Hx]. rewrite Hx. eauto.
      * intros a. destruct (decide (agentId = a)) as [<-|Hne].
        -- now rewrite !lookup_insert_eq.
        -- rewrite !lookup_insert_ne by exact Hne. apply Hr.
      * intros a socket. rewrite mapGet_app.
        destruct (mapGet a (sockets m)) as [s0|] eqn:Ha.
        -- intros Heq. inversion Heq; subst.
           destruct (Hh _ _ Ha) as (so & Hso & Hag).
           assert (Hlt : socket < nextRef m) by (apply Hf; eauto).
           exists so. rewrite lookup_insert_ne by lia. now split.
        -- cbn. destruct (String.eqb agentId a) eqn:He; [|discriminate].
           apply String.eqb_eq in He. subst a. intros Heq. inversion Heq; subst.
           rewrite lookup_insert_eq. eexists. split; reflexivity.
    + intros socket. cbn. destruct (decide (nextRef m = socket)) as [<-|Hne].
      * intros _. lia.
      * rewrite lookup_insert_ne by exact Hne. intros Hs.
        specialize (Hf socket Hs). lia.
Qed.

Lemma step_inSync (m : Manager) (ev : Event) :
  inSync m /\ refsFresh m -> inSync (step m ev) /\ refsFresh (step m ev).
Proof.
  intros Hinv. destruct ev; cbn [step].
  - now apply connect_inSync.
  - apply (keepsMaps_inSync m); [|exact Hinv].
    apply onlySends_keepsMaps, sendMessage_onlySends.
  - unfold disconnect. destruct (mapGet agentId (sockets m)) as [socket|].
    + apply (keepsMaps_inSync (forget agentId (closeSocket socket m)));
        [repeat split|].
      apply forget_inSync.
      apply (keepsMaps_inSync m); [apply closeSocket_keepsMaps | exact Hinv].
    + apply (keepsMaps_inSync m); [repeat split | exact Hinv].
  - apply (keepsMaps_inSync m); [apply disconnectAll_keepsMaps | exact Hinv].
  - unfold onopen. destruct (heap m !! socket) as [so|]; [|exact Hinv].
    destruct (so_readyState so); try exact Hinv.
    apply (keepsMaps_inSync m); [|exact Hinv].
    eapply keepsMaps_trans; [apply setReadyState_keepsMaps|].
    eapply keepsMaps_trans; [|apply onlySends_keepsMaps, sendMessage_onlySends].
    set (m1 := print _ (setReadyState socket OPEN m)).
    apply (keepsMaps_trans _ m1); [repeat split|].
    destruct (resolveReadyMap m1 !! so_agentId so);
      [apply onlySends_keepsMaps, resolvePromise_onlySends
      | apply keepsMaps_refl].
  - unfold onclose. destruct (heap m !! socket) as [so|]; [|exact Hinv].
    assert (Hc : inSync (forget (so_agentId so)
                   (print (Log (if so_disconnectAllHandler so
                        then "WebSocket for agent " +:+ so_agentId so
                             +:+ " disconnected."
                        else "WebSocket closed for agent " +:+ so_agentId so))
                      (setReadyState socket CLOSED m))) /\
                 refsFresh (forget (so_agentId so)
                   (print (Log (if so_disconnectAllHandler so
                        then "WebSocket for agent " +:+ so_agentId so
                             +:+ " disconnected."
                        else "WebSocket closed for agent " +:+ so_agentId so))
                      (setReadyState socket CLOSED m)))).
    { apply forget_inSync.
      apply (keepsMaps_inSync m); [|exact Hinv].
      eapply keepsMaps_trans; [apply setReadyState_keepsMaps | repeat split]. }
    destruct (so_readyState so); try exact Hc. exact Hinv.
  - unfold onerror. destruct (heap m !! socket); [|exact Hinv].
    apply (keepsMaps_inSync m); [repeat split | exact Hinv].
  - unfold onmessage. destruct (heap m !! socket); [|exact Hinv].
    apply (keepsMaps_inSync m); [repeat split | exact Hinv].
Qed.

(** X20: whatever calls and socket events a new manager goes through, its
    three maps hold the same agents, each agent has one registered socket at
    most, the socket registered for an agent was created for that agent, and
    the promise and its resolver are registered together; so [sendMessage]
    never finds a socket without its ready promise. *)
Theorem manager_maps_in_sync (events : list Event) :
  inSync (run new events) /\
  (forall agentId socket,
     mapGet agentId (sockets (run new events)) = Some socket ->
     is_Some (readyPromises (run new events) !! agentId)).
Proof.
  assert (H : inSync (run new events) /\ refsFresh (run new events)).
  { unfold run.
    assert (Hnew : inSync new /\ refsFresh new).
    { split.
      - repeat split; cbn; try constructor.
        + intros [x Hx]. discriminate Hx.
        + intros [x Hx]. rewrite lookup_empty in Hx. discriminate Hx.
        + intros a s Hs. discriminate Hs.
      - intros s [x Hx]. cbn in Hx. rewrite lookup_empty in Hx.
        discriminate Hx. }
    revert Hnew. generalize new. induction events as [|ev rest IH];
      intros m Hm; [exact Hm|].
    cbn [fold_left]. apply IH. now apply step_inSync. }
  destruct H as [Hs _]. split; [exact Hs|].
  intros agentId socket Hg. destruct Hs as (_ & Hp & _). apply Hp. eauto.
Qed.

Lemma newOutput_app (m m' : Manager) (l : list Output) :
  output m' = output m ++ l -> newOutput m m' = l.
Proof. intros H. unfold newOutput. rewrite H. apply drop_app_length. Qed.

Lemma newOutput_same (m m' : Manager) :
  output m' = output m -> newOutput m m' = [].
Proof.
  intros H. apply newOutput_app. now rewrite app_nil_r.
Qed.

Lemma sentSockets_app (l1 l2 : list Output) :
  sentSockets (l1 ++ l2) = sentSockets l1 ++ sentSockets l2.
Proof. unfold sentSockets. apply flat_map_app. Qed.

Lemma setReadyState_output (socket : nat) (s : ReadyState) (m : Manager) :
  output (setReadyState socket s m) = output m.
Proof. reflexivity. Qed.

Lemma closeSocket_output (socket : nat) (m : Manager) :
  output (closeSocket socket m) = output m.
Proof.
  unfold closeSocket. destruct (heap m !! socket) as [so|]; [|reflexivity].
  now destruct (so_readyState so).
Qed.

Lemma disconnectOne_output (entry : string * nat) (m : Manager) :
  exists l, output (disconnectOne entry m) = output m ++ l /\
            sentSockets l = [].
Proof.
  destruct entry as [agentId socket]. unfold disconnectOne. cbn [print heap].
  destruct (heap m !! socket) as [so|].
  - destruct (isOpen (so_readyState so)).
    + rewrite closeSocket_output. cbn. eexists. split; reflexivity.
    + cbn. rewrite <- app_assoc. eexists. split; reflexivity.
  - cbn. eexists. split; reflexivity.
Qed.

Lemma disconnectAll_output (m : Manager) :
  exists l, output (disconnectAll m) = output m ++ l /\ sentSockets l = [].
Proof.
  unfold disconnectAll. generalize (sockets m) at 1. intros entries.
  revert m. induction entries as [|e rest IH]; intros m; cbn [fold_left].
  - exists []. split; [now rewrite app_nil_r | reflexivity].
  - destruct (disconnectOne_output e m) as (l1 & O1 & S1).
    destruct (IH (disconnectOne e m)) as (l2 & O2 & S2).
    exists (l1 ++ l2). split.
    + rewrite O2, O1. now rewrite app_assoc.
    + rewrite sentSockets_app, S1, S2. reflexivity.
Qed.

(** X21: a message is only ever passed to [socket.send] of a socket whose
    state is OPEN: whatever call or socket event a manager handles, every
    socket it sends to while handling it is open, and still open when the
    handling ends. *)
Theorem sends_only_to_open_sockets (m : Manager) (ev : Event) (socket : nat) :
  In socket (sentSockets (newOutput m (step m ev))) ->
  socketOpen (step m ev) socket.
Proof.
  destruct ev; cbn [step].
  - unfold connect. destruct (mapGet agentId (sockets m)).
    + rewrite (newOutput_app _ _ [Warn ("WebSocket for agent " +:+ agentId
                                          +:+ " already exists.")])
        by reflexivity.
      intros [].
    + rewrite newOutput_same by reflexivity. intros [].
  - destruct (sendMessage_onlySends agentId message m)
      as (_ & _ & _ & _ & Hh & l & Ho & Hl).
    rewrite (newOutput_app _ _ l Ho). intros Hin.
    destruct (Hl _ Hin) as (so & Hso & Hopen). exists so.
    rewrite Hh. now split.
  - unfold disconnect. destruct (mapGet agentId (sockets m)) as [s0|].
    + rewrite (newOutput_app _ _ [Log ("WebSocket for agent " +:+ agentId
                                        +:+ " disconnected.")]).
      * intros [].
      * cbn. now rewrite closeSocket_output.
    + rewrite (newOutput_app _ _ [Warn ("No WebSocket found for agent "
                                         +:+ agentId)]) by reflexivity.
      intros [].
  - destruct (disconnectAll_output m) as (l & Ho & Hs).
    rewrite (newOutput_app _ _ l Ho), Hs. intros [].
  - unfold onopen. destruct (heap m !! socket0) as [so|];
      [|rewrite newOutput_same by reflexivity; intros []].
    destruct (so_readyState so);
      try (rewrite newOutput_same by reflexivity; intros []).
    set (m1 := print (Log ("WebSocket connected for agent " +:+ so_agentId so))
                 (setReadyState socket0 OPEN m)).
    set (m2 := match resolveReadyMap m1 !! so_agentId so with
               | Some promise => resolvePromise promise m1
               | None => m1
               end).
    assert (H12 : onlySends m1 m2).
    { subst m2. destruct (resolveReadyMap m1 !! so_agentId so);
        [apply resolvePromise_onlySends | apply onlySends_refl]. }
    pose proof (onlySends_trans _ _ _ H12
                  (sendMessage_onlySends (so_agentId so)
                     (RoomJoining ROOM_JOINING (so_agentId so) (so_roomId so))
                     m2)) as (_ & _ & _ & _ & Hh & l & Ho & Hl).
    rewrite (newOutput_app _ _
               (Log ("WebSocket connected for agent " +:+ so_agentId so) :: l)).
    + cbn. intros Hin. destruct (Hl _ Hin) as (so' & Hso' & Hopen).
      exists so'. rewrite Hh. now split.
    + rewrite Ho. subst m1. cbn. now rewrite <- app_assoc.
  - unfold onclose. destruct (heap m !! socket0) as [so|];
      [|rewrite newOutput_same by reflexivity; intros []].
    destruct (so_readyState so);
      try (rewrite newOutput_same by reflexivity; intros []);
      (erewrite newOutput_app by (cbn; reflexivity); intros []).
  - unfold onerror. destruct (heap m !! socket0) as [so|];
      [|rewrite newOutput_same by reflexivity; intros []].
    erewrite newOutput_app by (cbn; reflexivity). intros [].
  - unfold onmessage. destruct (heap m !! socket0) as [so|];
      [|rewrite newOutput_same by reflexivity; intros []].
    erewrite newOutput_app by (cbn; reflexivity). intros [].
Qed.

Lemma sends_only_to_open_sockets_witness :
  In 0 (sentSockets
          (newOutput (run new [DoConnect "agent" "room"])
             (step (run new [DoConnect "agent" "room"]) (SocketOpened 0)))) /\
  socketOpen (step (run new [DoConnect "agent" "room"]) (SocketOpened 0)) 0.
Proof.
  assert (H : In 0 (sentSockets
            (newOutput (run new [DoConnect "agent" "room"])
               (step (run new [DoConnect "agent" "room"]) (SocketOpened 0)))))
    by (vm_compute; left; reflexivity).
  split; [exact H|].
  exact (sends_only_to_open_sockets _ _ _ H).
Defined.



End SocketManagerProperties.
